(** * An asyncio forward proxy with an embedded control API

    Shallow embedding of [async.py] (class [ProxyServer]) and the
    properties of its data path and of its control API.

    - Python [str] values are lists of code points ([list N]); [bytes]
      values are lists of [byte].  [latin-1] decoding is the identity on
      code points, [utf-8] encoding is written out.
    - The header dictionary is a finite map from text to text.
    - A coroutine of the handler is a computation over the connection
      (reader, writer, proxy object) that returns, raises or runs out of
      fuel; [try/except/finally] is written out on such computations.
    - The client is the bytes it sends and the way its stream ends
      (closed, or silent past the deadline of a read).  The upstream is
      the outcome of the exchange: an answer or an exception.
    - The counters touched by concurrent [forward_request] calls are
      modelled by a step function whose atomic steps are the stretches of
      code between two suspension points.

    Left out: the log, the clock behind the deadlines, a connection that
    is reset under the reader or the writer, and the cap CPython puts on
    the number of digits [int] reads. *)

From Stdlib Require Import ZArith NArith List String Ascii DecimalString Decimal Bool Lia.
From Stdlib.Strings Require Import Byte.
From stdpp Require Import gmap list.
Import ListNotations.

Set Default Proof Using "Type".
Set Warnings "-register-all".

Local Open Scope N_scope.

(** ** Text and bytes *)

Module Text.

(** A Python [str]: a sequence of code points. *)
Abbreviation str := (list N).
(** A Python [bytes] object. *)
Abbreviation bytes := (list byte).

(** The code points of an ASCII literal. *)
Definition lit (s : string) : str := map N_of_ascii (list_ascii_of_string s).
Arguments lit : simpl never.

Definition LF : N := 10.
Definition CR : N := 13.
Definition SP : N := 32.
Definition COLON : N := 58.
Definition DQUOTE : N := 34.
Definition BACKSLASH : N := 92.

(** [bytes.decode('latin-1')]: every byte is its own code point. *)
Definition latin1_decode (b : bytes) : str := map Byte.to_N b.

(** [str.encode('latin-1')]: fails ([UnicodeEncodeError]) on a code point
    above 255. *)
Fixpoint latin1_encode (s : str) : option bytes :=
  match s with
  | [] => Some []
  | c :: s' =>
      match Byte.of_N c, latin1_encode s' with
      | Some b, Some bs => Some (b :: bs)
      | _, _ => None
      end
  end.

(** The byte whose value is [n mod 256]. *)
Definition byte_of (n : N) : byte :=
  match Byte.of_N (n mod 256) with
  | Some b => b
  | None => "000"%byte
  end.

Definition is_surrogate (c : N) : bool := (0xD800 <=? c) && (c <=? 0xDFFF).

(** The UTF-8 encoding of one code point; a lone surrogate (and anything
    past U+10FFFF) cannot be encoded. *)
Definition utf8_encode_char (c : N) : option bytes :=
  if c <? 0x80 then Some [byte_of c]
  else if c <? 0x800 then
    Some [byte_of (0xC0 + c / 64); byte_of (0x80 + c mod 64)]
  else if c <? 0x10000 then
    if is_surrogate c then None
    else Some [byte_of (0xE0 + c / 4096);
               byte_of (0x80 + (c / 64) mod 64);
               byte_of (0x80 + c mod 64)]
  else if c <? 0x110000 then
    Some [byte_of (0xF0 + c / 262144);
          byte_of (0x80 + (c / 4096) mod 64);
          byte_of (0x80 + (c / 64) mod 64);
          byte_of (0x80 + c mod 64)]
  else None.

(** [str.encode('utf-8')]. *)
Fixpoint utf8_encode (s : str) : option bytes :=
  match s with
  | [] => Some []
  | c :: s' =>
      match utf8_encode_char c, utf8_encode s' with
      | Some b, Some bs => Some (b ++ bs)
      | _, _ => None
      end
  end.

Definition is_ascii (c : N) : bool := c <? 0x80.

(** Text that [latin-1] can encode. *)
Definition latin1 (s : str) : Prop := Forall (fun c => c < 256) s.

(** [str(n)] for an integer. *)
Definition str_of_Z (z : Z) : str := lit (NilZero.string_of_int (Z.to_int z)).

(** [len(s)] as a Python integer. *)
Definition len (s : str) : Z := Z.of_nat (length s).

(** Characters removed by [str.strip()] with no argument
    ([Py_UNICODE_ISSPACE]). *)
Definition is_space (c : N) : bool :=
  ((0x09 <=? c) && (c <=? 0x0D)) || ((0x1C <=? c) && (c <=? 0x20))
  || (c =? 0x85) || (c =? 0xA0) || (c =? 0x1680)
  || ((0x2000 <=? c) && (c <=? 0x200A))
  || (c =? 0x2028) || (c =? 0x2029) || (c =? 0x202F) || (c =? 0x205F)
  || (c =? 0x3000).

Definition is_crlf (c : N) : bool := (c =? CR) || (c =? LF).

Fixpoint lstrip_by (p : N -> bool) (s : str) : str :=
  match s with
  | [] => []
  | c :: s' => if p c then lstrip_by p s' else s
  end.

Definition rstrip_by (p : N -> bool) (s : str) : str :=
  rev (lstrip_by p (rev s)).

(** [s.rstrip('\r\n')] *)
Definition rstrip_crlf (s : str) : str := rstrip_by is_crlf s.

(** [s.strip()] *)
Definition strip (s : str) : str := rstrip_by is_space (lstrip_by is_space s).

(** Cut [s] at the first occurrence of [sep]: the text before it and the
    text after it. *)
Fixpoint cut (sep : N) (s : str) : option (str * str) :=
  match s with
  | [] => None
  | c :: s' =>
      if c =? sep then Some ([], s')
      else match cut sep s' with
           | Some (a, b) => Some (c :: a, b)
           | None => None
           end
  end.

(** [sep in s] for a one-character [sep]. *)
Definition contains (sep : N) (s : str) : bool :=
  match cut sep s with Some _ => true | None => false end.

(** [s.split(sep, maxsplit)] for a one-character [sep]. *)
Fixpoint split (sep : N) (maxsplit : nat) (s : str) : list str :=
  match maxsplit with
  | O => [s]
  | S n =>
      match cut sep s with
      | Some (a, b) => a :: split sep n b
      | None => [s]
      end
  end.

(** [s.count(c)] for a one-character [c]. *)
Fixpoint count (c : N) (s : str) : nat :=
  match s with
  | [] => 0
  | x :: s' => if x =? c then S (count c s') else count c s'
  end.

(** [needle in hay] for texts: [needle] occurs as a contiguous run. *)
Fixpoint starts_with (needle hay : str) : bool :=
  match needle, hay with
  | [], _ => true
  | _ :: _, [] => false
  | a :: n', b :: h' => (a =? b) && starts_with n' h'
  end.

Fixpoint substring (needle hay : str) : bool :=
  starts_with needle hay ||
  match hay with
  | [] => false
  | _ :: h' => substring needle h'
  end.

(** *** [int(s)] on text *)

Definition is_digit (c : N) : bool := (48 <=? c) && (c <=? 57).

(** White space skipped by the integer parser itself ([Py_ISSPACE]). *)
Definition is_c_space (c : N) : bool :=
  ((0x09 <=? c) && (c <=? 0x0D)) || (c =? 0x20).

(** Digits with single underscores between them, after a first digit
    has been read into [acc]. *)
Fixpoint scan_digits (acc : Z) (s : str) : option Z :=
  match s with
  | [] => Some acc
  | c :: s' =>
      if is_digit c then scan_digits (10 * acc + Z.of_N (c - 48)) s'
      else if c =? 95 then
        match s' with
        | d :: s'' =>
            if is_digit d then scan_digits (10 * acc + Z.of_N (d - 48)) s''
            else None
        | [] => None
        end
      else None
  end.

Definition scan_number (s : str) : option Z :=
  match s with
  | c :: s' => if is_digit c then scan_digits (Z.of_N (c - 48)) s' else None
  | [] => None
  end.

(** The number of digits of a literal, leading zeros included and
    underscores left out, as the parser counts them. *)
Fixpoint count_digits (s : str) : N :=
  match s with
  | [] => 0
  | c :: s' => if is_digit c then 1 + count_digits s' else count_digits s'
  end.

(** [sys.int_info.default_max_str_digits]: the interpreter's limit on
    the digits of a decimal literal it converts (in force unless the
    interpreter is started with another). *)
Definition int_max_str_digits : N := 4300.

(** The digits of a literal, sign removed: refused when there are more
    than the limit allows, converted otherwise. *)
Definition scan_limited (s : str) : option Z :=
  if int_max_str_digits <? count_digits s then None else scan_number s.

(** [int(s)], base 10: [None] stands for [ValueError].  Exact on text
    decoded from latin-1 (the only decimal digits there are the ASCII
    ones).  Text that is not pure ASCII first has its Unicode spaces
    turned into blanks; then blanks around the number are skipped, a sign
    is read, and the digits follow, at most [int_max_str_digits] of
    them. *)
Definition py_int (s : str) : option Z :=
  let s1 := if forallb is_ascii s then s
            else map (fun c => if (127 <=? c) && is_space c then SP else c) s in
  let s2 := rstrip_by is_c_space (lstrip_by is_c_space s1) in
  match s2 with
  | 45 :: r => option_map Z.opp (scan_limited r)
  | 43 :: r => scan_limited r
  | _ => scan_limited s2
  end.

End Text.
Import Text.

(** ** Exceptions and outcomes of a computation *)

Inductive exn_class :=
| TimeoutError          (* asyncio.TimeoutError: a deadline elapsed *)
| IncompleteReadError   (* the stream ended inside readexactly *)
| ValueError
| TypeError
| KeyError
| OverflowError
| UnicodeEncodeError
| JSONDecodeError
| ClientError           (* aiohttp: connection refused, transport error *)
| OSError
| AttributeError
| CancelledError.       (* derives from BaseException only *)

Record exn := Exn { exn_cls : exn_class; exn_msg : str }.

(** [isinstance(e, Exception)]: what [except Exception] catches. *)
Definition is_Exception (e : exn) : bool :=
  match exn_cls e with
  | CancelledError => false
  | _ => true
  end.

(** [isinstance(e, asyncio.TimeoutError)] *)
Definition is_TimeoutError (e : exn) : bool :=
  match exn_cls e with
  | TimeoutError => true
  | _ => false
  end.

(** What a call does: it returns, it raises, or the model's fuel is
    spent before it did either. *)
Inductive result (A : Type) :=
| Return (a : A)
| Raise (e : exn)
| OutOfFuel.
Arguments Return {A} a.
Arguments Raise {A} e.
Arguments OutOfFuel {A}.

(** ** Values exchanged as JSON *)

(** A Python [float]: a finite binary fraction [m * 2^e], an infinity or
    a NaN. *)
Inductive pyfloat :=
| Finite (m e : Z)
| Infinite
| NaN.

Inductive json :=
| JNull
| JBool (b : bool)
| JInt (z : Z)
| JFloat (f : pyfloat)
| JStr (s : str)
| JList (l : list json)
| JDict (d : list (str * json)).

(** ** json.dumps on text *)

Module Dumps.

Definition hex_digit (d : N) : N := if d <? 10 then 48 + d else 87 + d.

(** ['{0:04x}'.format(n)] for [n < 0x10000] *)
Definition hex4 (n : N) : str :=
  [hex_digit (n / 4096 mod 16); hex_digit (n / 256 mod 16);
   hex_digit (n / 16 mod 16); hex_digit (n mod 16)].

Definition u_escape (n : N) : str := BACKSLASH :: 117 :: hex4 n.

(** The replacement of one character in [py_encode_basestring_ascii]:
    the two-character escapes of [ESCAPE_DCT], the character itself when
    it is printable ASCII, a [\uXXXX] escape otherwise, a surrogate pair
    of them past the basic plane. *)
Definition escape_char (c : N) : str :=
  if c =? BACKSLASH then [BACKSLASH; BACKSLASH]
  else if c =? DQUOTE then [BACKSLASH; DQUOTE]
  else if c =? 8 then [BACKSLASH; 98]
  else if c =? 12 then [BACKSLASH; 102]
  else if c =? 10 then [BACKSLASH; 110]
  else if c =? 13 then [BACKSLASH; 114]
  else if c =? 9 then [BACKSLASH; 116]
  else if (32 <=? c) && (c <=? 126) then [c]
  else if c <? 0x10000 then u_escape c
  else
    let n := c - 0x10000 in
    let s1 := N.lor 0xd800 (N.land (N.shiftr n 10) 0x3ff) in
    let s2 := N.lor 0xdc00 (N.land n 0x3ff) in
    u_escape s1 ++ u_escape s2.

(** [json.dumps(s)] for a text [s]. *)
Definition dumps_str (s : str) : str :=
  DQUOTE :: flat_map escape_char s ++ [DQUOTE].

Fixpoint dumps_items (items : list (str * str)) : str :=
  match items with
  | [] => []
  | [(k, v)] => dumps_str k ++ lit ": " ++ dumps_str v
  | (k, v) :: rest =>
      dumps_str k ++ lit ": " ++ dumps_str v ++ lit ", " ++ dumps_items rest
  end.

(** [json.dumps(d)] for a dict [d] of texts, in insertion order. *)
Definition dumps (items : list (str * str)) : str :=
  lit "{" ++ dumps_items items ++ lit "}".

End Dumps.

(** ** The proxy object *)

Record Stats := {
  total_requests : Z;
  successful_requests : Z;
  failed_requests : Z;
  start_time : str;
  uptime_seconds : Z;
  active_connections : Z
}.

(** The attributes of [ProxyServer] that the request path and the
    control API read or write. *)
Record ProxyServer := {
  target_url : json;
  max_connections : Z;
  stats : Stats
}.

Definition set_stats (self : ProxyServer) (st : Stats) : ProxyServer :=
  {| target_url := target_url self;
     max_connections := max_connections self;
     stats := st |}.

(** The dictionary [__init__] and [reset_stats] build. *)
Definition fresh_stats (now : str) : Stats :=
  {| total_requests := 0;
     successful_requests := 0;
     failed_requests := 0;
     start_time := now;
     uptime_seconds := 0;
     active_connections := 0 |}.

(** [reset_stats]: a new dictionary replaces the old one. *)
Definition reset_stats (now : str) (self : ProxyServer) : ProxyServer :=
  set_stats self (fresh_stats now).

(** ** Forwarding a request upstream *)

(** The arguments of one [forward_request] call. *)
Record ForwardCall := {
  fc_method : str;
  fc_url : str;
  fc_headers : gmap str str;
  fc_data : option bytes
}.

(** What happens inside [async with client_session.request(...)]: the
    upstream answers with a status and a text, or something in the
    exchange raises (connection refused, the 30 s timeout, a transport
    error, a cancellation of the task). *)
Inductive upstream :=
| Responded (status : Z) (headers : gmap str str) (text : str)
| Failed (e : exn).

Definition add_total (st : Stats) : Stats :=
  {| total_requests := total_requests st + 1;
     successful_requests := successful_requests st;
     failed_requests := failed_requests st;
     start_time := start_time st;
     uptime_seconds := uptime_seconds st;
     active_connections := active_connections st |}.

Definition add_successful (st : Stats) : Stats :=
  {| total_requests := total_requests st;
     successful_requests := successful_requests st + 1;
     failed_requests := failed_requests st;
     start_time := start_time st;
     uptime_seconds := uptime_seconds st;
     active_connections := active_connections st |}.

Definition add_failed (st : Stats) : Stats :=
  {| total_requests := total_requests st;
     successful_requests := successful_requests st;
     failed_requests := failed_requests st + 1;
     start_time := start_time st;
     uptime_seconds := uptime_seconds st;
     active_connections := active_connections st |}.

Definition add_active (d : Z) (st : Stats) : Stats :=
  {| total_requests := total_requests st;
     successful_requests := successful_requests st;
     failed_requests := failed_requests st;
     start_time := start_time st;
     uptime_seconds := uptime_seconds st;
     active_connections := active_connections st + d |}.

(** The two statements before the upstream call. *)
Definition enter_forward (st : Stats) : Stats := add_active 1 (add_total st).

(** The [finally] clause. *)
Definition leave_forward (st : Stats) : Stats := add_active (-1) st.

(** The result built by the [except Exception] clause. *)
Definition bad_gateway (e : exn) : Z * str :=
  (502%Z, Dumps.dumps [(lit "error", lit "Bad Gateway");
                       (lit "details", exn_msg e)]).

(** [forward_request], run without interruption on the counters [st],
    when the upstream exchange ends as [up]. *)
Definition forward_request (up : upstream) (st : Stats)
  : Stats * result (Z * str) :=
  (* try: *)
  let st := enter_forward st in
  let '(st, r) :=
    match up with
    | Responded status _ response_text =>
        (add_successful st, Return (status, response_text))
    | Failed e => (st, Raise e)
    end in
  (* except Exception as e: *)
  let '(st, r) :=
    match r with
    | Raise e =>
        if is_Exception e then (add_failed st, Return (bad_gateway e))
        else (st, Raise e)
    | _ => (st, r)
    end in
  (* finally: *)
  (leave_forward st, r).

(** ** Computations with state and exceptions *)

(** A computation over a state [S]: the state it leaves, and whether it
    returned, raised or ran out of fuel.  The state survives a raise, as
    the effects of a Python block do. *)
Definition M (S A : Type) : Type := S -> S * result A.

Definition ret {S A} (a : A) : M S A := fun s => (s, Return a).

Definition raise {S A} (e : exn) : M S A := fun s => (s, Raise e).

Definition bind {S A B} (m : M S A) (k : A -> M S B) : M S B :=
  fun s =>
    match m s with
    | (s', Return a) => k a s'
    | (s', Raise e) => (s', Raise e)
    | (s', OutOfFuel) => (s', OutOfFuel)
    end.

Notation "'do' x <- m ;; k" := (bind m (fun x => k))
  (at level 10, x name, m at level 99, k at level 200, only parsing).

(** An exception raised by the interpreter or by asyncio, with an empty
    message (where the message only reaches the log). *)
Definition raise_cls {S A} (cls : exn_class) : M S A := raise (Exn cls []).

(** ** The connection handler *)

(** How the client's byte stream ends after the bytes it has sent: the
    client closes its side, or it stays silent past the read deadline. *)
Inductive stream_end := Closes | Stalls.

Record StreamReader := {
  pending : bytes;       (* the bytes the client still sends *)
  ending : stream_end;   (* what happens after them *)
  limit : N              (* the line limit of the stream, 2^16 by default *)
}.

Record StreamWriter := {
  written : bytes;
  closed : bool
}.

(** One accepted connection: the proxy object, the two stream ends and
    the calls of [forward_request] made so far. *)
Record Conn := {
  self : ProxyServer;
  reader : StreamReader;
  writer : StreamWriter;
  forwarded : list ForwardCall
}.

Definition set_reader (r : StreamReader) (c : Conn) : Conn :=
  {| self := self c; reader := r; writer := writer c;
     forwarded := forwarded c |}.

Definition set_writer (w : StreamWriter) (c : Conn) : Conn :=
  {| self := self c; reader := reader c; writer := w;
     forwarded := forwarded c |}.

(** The connection once the reader has moved on to [rest]. *)
Definition advance (rest : bytes) (c : Conn) : Conn :=
  set_reader {| pending := rest;
                ending := ending (reader c);
                limit := limit (reader c) |} c.

(** The first line of [b], newline included, and what follows it. *)
Fixpoint take_line (b : bytes) : option (bytes * bytes) :=
  match b with
  | [] => None
  | x :: b' =>
      match x with
      | x0a => Some ([x], b')
      | _ => match take_line b' with
             | Some (l, rest) => Some (x :: l, rest)
             | None => None
             end
      end
  end.

(** [await asyncio.wait_for(reader.readline(), timeout=10)]: a whole
    line when one arrives; what is left when the stream ends first (the
    empty bytes from then on); [TimeoutError] when the client is silent;
    [ValueError] when more than [limit] bytes come before the newline
    (the handler reads no more after that). *)
Definition wait_for_readline : M Conn bytes :=
  fun c =>
    let r := reader c in
    match take_line (pending r) with
    | Some (line, rest) =>
        if limit r + 1 <? N.of_nat (length line)
        then (c, Raise (Exn ValueError []))
        else (advance rest c, Return line)
    | None =>
        if limit r <? N.of_nat (length (pending r))
        then (c, Raise (Exn ValueError []))
        else
          match ending r with
          | Closes => (advance [] c, Return (pending r))
          | Stalls => (c, Raise (Exn TimeoutError []))
          end
    end.

(** [await asyncio.wait_for(reader.readexactly(n), timeout=10)] *)
Definition wait_for_readexactly (n : Z) : M Conn bytes :=
  fun c =>
    let r := reader c in
    if (n <? 0)%Z then (c, Raise (Exn ValueError []))
    else if (n <=? Z.of_nat (length (pending r)))%Z then
      (advance (drop (Z.to_nat n) (pending r)) c,
       Return (take (Z.to_nat n) (pending r)))
    else
      match ending r with
      | Closes => (advance [] c, Raise (Exn IncompleteReadError []))
      | Stalls => (c, Raise (Exn TimeoutError []))
      end.

(** [writer.write(data)] *)
Definition write (data : bytes) : M Conn unit :=
  fun c =>
    (set_writer {| written := written (writer c) ++ data;
                   closed := closed (writer c) |} c, Return tt).

(** The connection after [data] has gone to the writer. *)
Definition add_written (data : bytes) (c : Conn) : Conn :=
  set_writer {| written := written (writer c) ++ data;
                closed := closed (writer c) |} c.

(** What reading leaves alone: the proxy object, the writer, the log of
    forward calls, the way the stream ends and its limit. *)
Definition same_but_pending (c c' : Conn) : Prop :=
  self c' = self c /\ writer c' = writer c /\ forwarded c' = forwarded c
  /\ ending (reader c') = ending (reader c)
  /\ limit (reader c') = limit (reader c).

(** [writer.close()] followed by [await writer.wait_closed()], for a
    client that takes what is written: the wait resumes.
    [handle_proxy_request_in] has the wait that raises or stays
    suspended. *)
Definition close (c : Conn) : Conn :=
  set_writer {| written := written (writer c); closed := true |} c.

(** [s.encode(...)], raising [UnicodeEncodeError] when it fails. *)
Definition encoded (o : option bytes) : M Conn bytes :=
  match o with
  | Some b => ret b
  | None => raise_cls UnicodeEncodeError
  end.

(** [int(s)] on a header value. *)
Definition int_of (s : str) : M Conn Z :=
  match py_int s with
  | Some z => ret z
  | None => raise_cls ValueError
  end.

(** [header_line == b'\r\n' or header_line == b'\n'] *)
Definition is_blank_line (b : bytes) : bool :=
  match b with
  | [x0d; x0a] => true
  | [x0a] => true
  | _ => false
  end.

(** The [while True] loop that fills [headers]; one unit of fuel per
    iteration. *)
Fixpoint read_headers (fuel : nat) (headers : gmap str str)
  : M Conn (gmap str str) :=
  match fuel with
  | O => fun c => (c, OutOfFuel)
  | S fuel' =>
      do header_line <- wait_for_readline ;;
      if is_blank_line header_line then ret headers
      else
        let header_line := rstrip_crlf (latin1_decode header_line) in
        if contains COLON header_line then
          match split COLON 1 header_line with
          | [key; value] =>
              read_headers fuel' (<[strip key := strip value]> headers)
          | _ => raise_cls ValueError
          end
        else read_headers fuel' headers
  end.

(** "Read body if present" *)
Definition read_body (headers : gmap str str) : M Conn (option bytes) :=
  match headers !! lit "Content-Length" with
  | Some v =>
      do content_length <- int_of v ;;
      do data <- wait_for_readexactly content_length ;;
      ret (Some data)
  | None => ret None
  end.

Definition response_line (http_version : str) (status : Z) : str :=
  http_version ++ lit " " ++ str_of_Z status ++ lit " OK" ++ [CR; LF].

Definition response_headers (response : str) : str :=
  lit "Content-Length: " ++ str_of_Z (len response) ++ [CR; LF]
  ++ lit "Content-Type: application/json" ++ [CR; LF; CR; LF].

(** "Send response": three writes (each after its encoding) and the
    drain, for a client that takes what is written: the drain resumes.
    [handle_proxy_request_in] has the drain that raises or stays
    suspended. *)
Definition send_response (http_version : str) (status : Z) (response : str)
  : M Conn unit :=
  do line <- encoded (latin1_encode (response_line http_version status)) ;;
  do _ <- write line ;;
  do head <- encoded (latin1_encode (response_headers response)) ;;
  do _ <- write head ;;
  do payload <- encoded (utf8_encode response) ;;
  write payload.

Section Handler.

(** The text an f-string puts for a value. *)
Variable format_value : json -> str.

(** How the upstream exchange of a given call ends. *)
Variable upstream_of : ForwardCall -> upstream.

(** [await self.forward_request(method, url, headers, data)] from the
    handler. *)
Definition call_forward (call : ForwardCall) : M Conn (Z * str) :=
  fun c =>
    let '(st, r) := forward_request (upstream_of call) (stats (self c)) in
    ({| self := set_stats (self c) st;
        reader := reader c;
        writer := writer c;
        forwarded := forwarded c ++ [call] |}, r).

(** The handler once the head of the request is read: target, body,
    forward, response. *)
Definition after_headers (method path http_version : str)
    (headers : gmap str str) : M Conn unit :=
  fun c =>
    let target_url := format_value (target_url (self c)) ++ path in
    (do body <- read_body headers ;;
     do answer <- call_forward {| fc_method := method;
                                  fc_url := target_url;
                                  fc_headers := headers;
                                  fc_data := body |} ;;
     send_response http_version (fst answer) (snd answer)) c.

(** The call the handler makes for a request read from [c]. *)
Definition the_call (method path : str) (headers : gmap str str)
    (body : option bytes) (c : Conn) : ForwardCall :=
  {| fc_method := method;
     fc_url := format_value (target_url (self c)) ++ path;
     fc_headers := headers;
     fc_data := body |}.

(** The body of the [try] statement of [handle_proxy_request]. *)
Definition handle_request (fuel : nat) : M Conn unit :=
  do request_line <- wait_for_readline ;;
  match request_line with
  | [] => ret tt
  | _ :: _ =>
      let request_line := rstrip_crlf (latin1_decode request_line) in
      let parts := split SP 2 request_line in
      if (length parts <? 3)%nat then ret tt
      else
        match parts with
        | [method; path; http_version] =>
            do headers <- read_headers fuel ∅ ;;
            after_headers method path http_version headers
        | _ => raise_cls ValueError
        end
  end.

(** [handle_proxy_request]: the two [except] clauses only log, the
    [finally] clause closes the writer.  This is the handler when
    nothing lands in its reads and the client takes what is written;
    [handle_proxy_request_in] is the handler with all that its awaits
    can come to. *)
Definition handle_proxy_request (fuel : nat) : M Conn unit :=
  fun c =>
    match handle_request fuel c with
    | (c', Return _) => (close c', Return tt)
    | (c', Raise e) =>
        if is_TimeoutError e || is_Exception e then (close c', Return tt)
        else (close c', Raise e)
    | (c', OutOfFuel) => (c', OutOfFuel)
    end.

(** The head of a request has been read from [c]: a request line with
    its three parts, then the header block; [c2] is the connection at
    that point. *)
Definition head_decoded (fuel : nat) (c : Conn)
    (method path http_version : str) (headers : gmap str str) (c2 : Conn)
  : Prop :=
  exists raw c1,
    wait_for_readline c = (c1, Return raw) /\
    raw <> [] /\
    split SP 2 (rstrip_crlf (latin1_decode raw))
      = [method; path; http_version] /\
    read_headers fuel ∅ c1 = (c2, Return headers).

End Handler.

(** ** Concurrent forward calls on the event loop *)

(** One task runs at a time and gives way only where it awaits.  A
    [forward_request] call awaits inside the upstream exchange and, once
    the response is counted, in the exit of its [async with] block; the
    code between two such points runs as one step.  The exit of the block
    releases the connection; it can be cancelled but raises nothing of
    its own.  A control-API handler that touches the counters has no
    such point and is one step. *)
Module Loop.

Record System := {
  counters : Stats;      (* [self.stats] *)
  exchanging : nat;      (* calls suspended in the upstream exchange *)
  leaving : nat          (* calls suspended in the exit of [async with] *)
}.

Inductive event :=
| Start                  (* a call runs up to the upstream exchange *)
| Respond                (* an exchange yields its text; the call counts it *)
| Fail                   (* an exchange raises an [Exception] *)
| Finish                 (* a call that counted its response returns *)
| CancelExchange         (* [CancelledError] lands in an exchange *)
| CancelLeave            (* [CancelledError] lands in the exit of the block *)
| ResetStats (now : str) (* POST /reset-stats *)
| GetStats (uptime : Z). (* GET /stats *)

Definition set_uptime (u : Z) (st : Stats) : Stats :=
  {| total_requests := total_requests st;
     successful_requests := successful_requests st;
     failed_requests := failed_requests st;
     start_time := start_time st;
     uptime_seconds := u;
     active_connections := active_connections st |}.

(** One step of the loop; [None] when no task can make that step. *)
Definition step (ev : event) (s : System) : option System :=
  match ev with
  | Start =>
      Some {| counters := enter_forward (counters s);
              exchanging := S (exchanging s);
              leaving := leaving s |}
  | Respond =>
      match exchanging s with
      | S n => Some {| counters := add_successful (counters s);
                       exchanging := n;
                       leaving := S (leaving s) |}
      | O => None
      end
  | Fail =>
      match exchanging s with
      | S n => Some {| counters := leave_forward (add_failed (counters s));
                       exchanging := n;
                       leaving := leaving s |}
      | O => None
      end
  | Finish =>
      match leaving s with
      | S n => Some {| counters := leave_forward (counters s);
                       exchanging := exchanging s;
                       leaving := n |}
      | O => None
      end
  | CancelExchange =>
      match exchanging s with
      | S n => Some {| counters := leave_forward (counters s);
                       exchanging := n;
                       leaving := leaving s |}
      | O => None
      end
  | CancelLeave =>
      match leaving s with
      | S n => Some {| counters := leave_forward (counters s);
                       exchanging := exchanging s;
                       leaving := n |}
      | O => None
      end
  | ResetStats now =>
      Some {| counters := fresh_stats now;
              exchanging := exchanging s;
              leaving := leaving s |}
  | GetStats u =>
      Some {| counters := set_uptime u (counters s);
              exchanging := exchanging s;
              leaving := leaving s |}
  end.

Fixpoint run (evs : list event) (s : System) : option System :=
  match evs with
  | [] => Some s
  | ev :: evs' =>
      match step ev s with
      | Some s' => run evs' s'
      | None => None
      end
  end.

(** The proxy as [__init__] leaves it: no call in flight. *)
Definition initial (now : str) : System :=
  {| counters := fresh_stats now; exchanging := 0; leaving := 0 |}.

(** The number of calls in flight. *)
Definition in_flight (s : System) : nat := (exchanging s + leaving s)%nat.

Definition is_reset (ev : event) : bool :=
  match ev with ResetStats _ => true | _ => false end.

Definition is_cancel (ev : event) : bool :=
  match ev with CancelExchange | CancelLeave => true | _ => false end.

(** Every call of the run completes and nothing resets the counters. *)
Definition calls_only (evs : list event) : bool :=
  forallb (fun ev => negb (is_reset ev) && negb (is_cancel ev)) evs.

(** Along the run of [evs] from [s], every reset happens while no call
    is in flight. *)
Fixpoint resets_when_idle (evs : list event) (s : System) : bool :=
  match evs with
  | [] => true
  | ev :: evs' =>
      (if is_reset ev then Nat.eqb (in_flight s) 0 else true)
      && match step ev s with
         | Some s' => resets_when_idle evs' s'
         | None => true
         end
  end.

End Loop.

(** ** The control API: POST /config *)

Record Response := {
  rsp_status : Z;
  rsp_payload : json
}.

(** [int(x)] on a float: truncation towards zero. *)
Definition int_of_float (f : pyfloat) : exn_class + Z :=
  match f with
  | Finite m e =>
      inr (if (0 <=? e)%Z then (m * 2 ^ e)%Z else Z.quot m (2 ^ (- e)))
  | Infinite => inl OverflowError
  | NaN => inl ValueError
  end.

Section ControlAPI.

(** [int(s)] on any text ([py_int] on text within latin-1). *)
Variable int_of_text : str -> option Z.

(** [str(e)] for an exception the interpreter raises on a value. *)
Variable message : exn_class -> json -> str.

Definition raise_on {S A} (cls : exn_class) (v : json) : M S A :=
  raise (Exn cls (message cls v)).

(** [key in data] *)
Definition py_in {S} (key : str) (data : json) : M S bool :=
  match data with
  | JDict d => ret (existsb (fun kv => bool_decide (fst kv = key)) d)
  | JList l =>
      ret (existsb (fun v =>
                      match v with
                      | JStr s => bool_decide (s = key)
                      | _ => false
                      end) l)
  | JStr s => ret (substring key s)
  | _ => raise_on TypeError data
  end.

Fixpoint dict_get (key : str) (d : list (str * json)) : option json :=
  match d with
  | [] => None
  | (k, v) :: d' => if bool_decide (k = key) then Some v else dict_get key d'
  end.

(** [data[key]] for a text [key] *)
Definition py_getitem {S} (key : str) (data : json) : M S json :=
  match data with
  | JDict d =>
      match dict_get key d with
      | Some v => ret v
      | None => raise_on KeyError (JStr key)
      end
  | _ => raise_on TypeError data
  end.

(** [int(v)] *)
Definition py_int_of {S} (v : json) : M S Z :=
  match v with
  | JInt z => ret z
  | JBool b => ret (if b then 1 else 0)%Z
  | JFloat f =>
      match int_of_float f with
      | inr z => ret z
      | inl cls => raise_on cls v
      end
  | JStr s =>
      match int_of_text s with
      | Some z => ret z
      | None => raise_on ValueError v
      end
  | _ => raise_on TypeError v
  end.

Definition set_max_connections (n : Z) : M ProxyServer unit :=
  fun self =>
    ({| target_url := target_url self;
        max_connections := n;
        stats := stats self |}, Return tt).

Definition set_target_url (u : json) : M ProxyServer unit :=
  fun self =>
    ({| target_url := u;
        max_connections := max_connections self;
        stats := stats self |}, Return tt).

Definition config_updated (self : ProxyServer) : Response :=
  {| rsp_status := 200;
     rsp_payload :=
       JDict [(lit "message", JStr (lit "Configuration updated successfully"));
              (lit "config",
               JDict [(lit "max_connections", JInt (max_connections self));
                      (lit "target_url", target_url self)])] |}.

Definition config_rejected (e : exn) : Response :=
  {| rsp_status := 400;
     rsp_payload := JDict [(lit "error", JStr (exn_msg e))] |}.

(** The [try] block of [update_config]; [request_json] is what
    [await request.json()] does: the parsed body, or the exception of a
    body that is not JSON. *)
Definition update_config_try (request_json : exn + json)
  : M ProxyServer Response :=
  do data <- match request_json with
          | inr data => ret data
          | inl e => raise e
          end ;;
  do has_max <- py_in (lit "max_connections") data ;;
  do _ <- (if has_max : bool then
        do v <- py_getitem (lit "max_connections") data ;;
        do n <- py_int_of v ;;
        set_max_connections n
      else ret tt) ;;
  do has_url <- py_in (lit "target_url") data ;;
  do _ <- (if has_url : bool then
        do u <- py_getitem (lit "target_url") data ;;
        set_target_url u
      else ret tt) ;;
  fun self => (self, Return (config_updated self)).

(** [update_config] *)
Definition update_config (request_json : exn + json)
  : M ProxyServer Response :=
  fun self =>
    match update_config_try request_json self with
    | (self', Raise e) =>
        if is_Exception e then (self', Return (config_rejected e))
        else (self', Raise e)
    | other => other
    end.

End ControlAPI.




(** ** Reading JSON text back *)

(** A scanner for the JSON texts the proxy emits as bodies: an object
    whose member values are string literals (RFC 8259 grammar, white
    space allowed between tokens).  It yields the members in order, each
    name and value as the characters between its quotes. *)
Module JsonText.

Definition is_hex (c : N) : bool :=
  is_digit c || ((97 <=? c) && (c <=? 102)) || ((65 <=? c) && (c <=? 70)).

(** The characters that may follow a backslash, [u] apart. *)
Definition is_simple_escape (c : N) : bool :=
  (c =? 34) || (c =? 92) || (c =? 47) || (c =? 98) || (c =? 102)
  || (c =? 110) || (c =? 114) || (c =? 116).

Definition with_prefix (p : str) (r : option (str * str)) : option (str * str) :=
  match r with
  | Some (body, rest) => Some (p ++ body, rest)
  | None => None
  end.

(** From just after an opening quote: the characters up to the closing
    quote, and what follows that quote. *)
Fixpoint scan_string (s : str) : option (str * str) :=
  match s with
  | [] => None
  | c :: s1 =>
      if c =? DQUOTE then Some ([], s1)
      else if c =? BACKSLASH then
        match s1 with
        | e :: s2 =>
            if is_simple_escape e then with_prefix [c; e] (scan_string s2)
            else if e =? 117 then
              match s2 with
              | h1 :: h2 :: h3 :: h4 :: s3 =>
                  if is_hex h1 && is_hex h2 && is_hex h3 && is_hex h4
                  then with_prefix [c; e; h1; h2; h3; h4] (scan_string s3)
                  else None
              | _ => None
              end
            else None
        | [] => None
        end
      else if c <? 32 then None
      else with_prefix [c] (scan_string s1)
  end.

Definition is_ws (c : N) : bool :=
  (c =? 32) || (c =? 9) || (c =? 10) || (c =? 13).

Definition skip_ws (s : str) : str := lstrip_by is_ws s.

(** The members of an object, from the first name to the closing brace
    and the end of the text. *)
Fixpoint scan_members (fuel : nat) (s : str) : option (list (str * str)) :=
  match fuel with
  | O => None
  | S fuel' =>
      match skip_ws s with
      | 34 :: s1 =>
          match scan_string s1 with
          | Some (k, s2) =>
              match skip_ws s2 with
              | 58 :: s3 =>
                  match skip_ws s3 with
                  | 34 :: s4 =>
                      match scan_string s4 with
                      | Some (v, s5) =>
                          match skip_ws s5 with
                          | 44 :: s6 =>
                              option_map (cons (k, v)) (scan_members fuel' s6)
                          | 125 :: s6 =>
                              match skip_ws s6 with
                              | [] => Some [(k, v)]
                              | _ => None
                              end
                          | _ => None
                          end
                      | None => None
                      end
                  | _ => None
                  end
              | _ => None
              end
          | None => None
          end
      | _ => None
      end
  end.

Definition scan_object (s : str) : option (list (str * str)) :=
  match skip_ws s with
  | 123 :: s1 =>
      match skip_ws s1 with
      | 125 :: s2 => match skip_ws s2 with [] => Some [] | _ => None end
      | _ => scan_members (length s) s1
      end
  | _ => None
  end.

(** The member names of an object text. *)
Definition object_keys (s : str) : option (list str) :=
  option_map (map fst) (scan_object s).

End JsonText.

(** ** The header block, as the specification words it *)

(** A raw line as the handler looks at it: decoded, line end removed. *)
Definition decode_line (raw : bytes) : str := rstrip_crlf (latin1_decode raw).


(** A line with a colon gives a key (before the first colon) and a value
    (after it), both trimmed; a line without one gives nothing. *)
Definition header_of_line (line : str) : option (str * str) :=
  match cut COLON line with
  | Some (k, v) => Some (strip k, strip v)
  | None => None
  end.

(** The value a key ends up with: that of the last line that carries
    the key. *)
Fixpoint last_value (key : str) (lines : list str) : option str :=
  match lines with
  | [] => None
  | l :: ls =>
      match last_value key ls with
      | Some v => Some v
      | None =>
          match header_of_line l with
          | Some (k, v) => if bool_decide (k = key) then Some v else None
          | None => None
          end
      end
  end.

(** [raw] is one whole line: it ends with LF and has no other LF. *)
Definition is_line (raw : bytes) : bool :=
  match take_line raw with
  | Some (_, []) => true
  | _ => false
  end.

(** A header line of the block: a whole line that is not the blank line
    ending the block. *)
Definition is_header_line (raw : bytes) : bool :=
  is_line raw && negb (is_blank_line raw).

(** [raw] is within the line limit [lim]: at most [lim] bytes before its
    newline. *)
Definition fits (lim : N) (raw : bytes) : bool :=
  N.of_nat (length raw) <=? lim + 1.

(** ** Sample connections *)

Module Samples.

Definition ascii_bytes (s : string) : bytes :=
  map byte_of_ascii (list_ascii_of_string s).

Definition crlf : bytes := [x0d; x0a].

(** The bytes of an ASCII text between double quotes. *)
Definition quoted (s : string) : bytes := x22 :: ascii_bytes s ++ [x22].

(** A formatter that is right on texts. *)
Definition format_text (v : json) : str :=
  match v with
  | JStr s => s
  | _ => []
  end.

Definition proxy : ProxyServer :=
  {| target_url := JStr (lit "http://localhost:8000");
     max_connections := 100;
     stats := fresh_stats (lit "2024-01-01T00:00:00") |}.

(** A connection just accepted, on which the client sends [input]. *)
Definition accept (input : bytes) (e : stream_end) : Conn :=
  {| self := proxy;
     reader := {| pending := input; ending := e; limit := 65536 |};
     writer := {| written := []; closed := false |};
     forwarded := [] |}.

(** A rendering of the interpreter's messages. *)
Definition message (cls : exn_class) (v : json) : str :=
  match cls with
  | ValueError => lit "invalid literal for int() with base 10"
  | TypeError => lit "unsupported operand"
  | OverflowError => lit "cannot convert float infinity to integer"
  | _ => lit "error"
  end.

(** An upstream that answers every call. *)
Definition answers (call : ForwardCall) : upstream :=
  Responded 200 {[ lit "Server" := lit "mock" ]} (lit "{}").

(** An upstream whose text has a character outside ASCII. *)
Definition answers_accented (call : ForwardCall) : upstream :=
  Responded 200 ∅ (lit "caf" ++ [233]).

(** An upstream that cannot be reached. *)
Definition unreachable (call : ForwardCall) : upstream :=
  Failed (Exn ClientError (lit "Cannot connect to host localhost:8000")).

Definition get_anything : bytes :=
  ascii_bytes "GET /anything HTTP/1.1" ++ crlf
  ++ ascii_bytes "Host: x" ++ crlf ++ crlf.


Definition post_with_body (announced : string) (body : string) : bytes :=
  ascii_bytes "POST /data HTTP/1.1" ++ crlf
  ++ ascii_bytes "Content-Length: " ++ ascii_bytes announced ++ crlf ++ crlf
  ++ ascii_bytes body.

End Samples.

(** To show that the head of a request is read: the raw request line and
    the connection after it, the rest by computation. *)
Ltac head_of raw c1 :=
  exists raw, c1; split; [reflexivity|split; [discriminate|split; reflexivity]].

(** ** Construction of the proxy *)

(** The arguments of [__init__]; [None] is the default of each. *)
Record InitArgs := {
  arg_proxy_host : option str;
  arg_proxy_port : option Z;
  arg_api_host : option str;
  arg_api_port : option Z;
  arg_target_url : option str;
  arg_max_connections : option Z
}.

(** The object [__init__] builds: where the two servers listen, and the
    attributes the request path and the control API work on. *)
Record Server := {
  proxy_host : str;
  proxy_port : Z;
  api_host : str;
  api_port : Z;
  core : ProxyServer
}.

(** [arg or fallback] on a text: an absent or empty text gives way. *)
Definition text_or (arg : option str) (fallback : str) : str :=
  match arg with
  | Some (c :: s) => c :: s
  | _ => fallback
  end.

(** [os.getenv(name, default)] with a text default. *)
Definition getenv (env : gmap str str) (name : str) (dflt : str) : str :=
  match env !! name with
  | Some s => s
  | None => dflt
  end.

Section Construction.

(** [int(s)] on the text of an environment variable. *)
Variable int_of_text : str -> option Z.

(** [int(arg or os.getenv(name, default))]: an absent or zero argument
    gives way to the variable, whose text is converted, and the variable
    to the default. *)
Definition int_setting (env : gmap str str) (arg : option Z) (name : str)
    (dflt : Z) : result Z :=
  let from_env :=
    match env !! name with
    | Some s =>
        match int_of_text s with
        | Some z => Return z
        | None => Raise (Exn ValueError [])
        end
    | None => Return dflt
    end in
  match arg with
  | Some n => if (n =? 0)%Z then from_env else Return n
  | None => from_env
  end.

(** [ProxyServer.__init__], in the environment [env], at the time
    [now]. *)
Definition init (env : gmap str str) (now : str) (a : InitArgs)
  : result Server :=
  let host := text_or (arg_proxy_host a) (getenv env (lit "PROXY_HOST") (lit "0.0.0.0")) in
  match int_setting env (arg_proxy_port a) (lit "PROXY_PORT") 8080 with
  | Return port =>
      let ahost := text_or (arg_api_host a) (getenv env (lit "API_HOST") (lit "0.0.0.0")) in
      match int_setting env (arg_api_port a) (lit "API_PORT") 9000 with
      | Return aport =>
          let target :=
            text_or (arg_target_url a)
              (getenv env (lit "TARGET_URL") (lit "http://localhost:8000")) in
          match int_setting env (arg_max_connections a)
                  (lit "MAX_CONNECTIONS") 100 with
          | Return limit_ =>
              Return {| proxy_host := host;
                        proxy_port := port;
                        api_host := ahost;
                        api_port := aport;
                        core := {| target_url := JStr target;
                                   max_connections := limit_;
                                   stats := fresh_stats now |} |}
          | Raise e => Raise e
          | OutOfFuel => OutOfFuel
          end
      | Raise e => Raise e
      | OutOfFuel => OutOfFuel
      end
  | Raise e => Raise e
  | OutOfFuel => OutOfFuel
  end.

End Construction.

(** An argument that [or] lets through. *)
Definition given_text (arg : option str) : option str :=
  match arg with
  | Some (c :: s) => Some (c :: s)
  | _ => None
  end.

Definition given_int (arg : option Z) : option Z :=
  match arg with
  | Some n => if (n =? 0)%Z then None else Some n
  | None => None
  end.

(** The arguments with those that [or] does not let through removed. *)
Definition given (a : InitArgs) : InitArgs :=
  {| arg_proxy_host := given_text (arg_proxy_host a);
     arg_proxy_port := given_int (arg_proxy_port a);
     arg_api_host := given_text (arg_api_host a);
     arg_api_port := given_int (arg_api_port a);
     arg_target_url := given_text (arg_target_url a);
     arg_max_connections := given_int (arg_max_connections a) |}.

(** An integer setting needs its environment variable, and the variable
    holds no integer. *)
Definition bad_variable (int_of_text : str -> option Z) (env : gmap str str)
    (arg : option Z) (name : str) : bool :=
  match given_int arg, env !! name with
  | None, Some s =>
      match int_of_text s with
      | Some _ => false
      | None => true
      end
  | _, _ => false
  end.

(** ** What a POST /config body asks for the target *)

Definition requested_url (data : json) : option json :=
  match data with
  | JDict d => dict_get (lit "target_url") d
  | _ => None
  end.


(** ** The shape of a request on the wire *)

(** Bytes with no newline among them: the start of a line the client
    has not finished. *)
Definition unfinished (b : bytes) : bool :=
  match take_line b with
  | Some _ => false
  | None => true
  end.

(** A key or value as the header loop stores it: nothing left for
    [strip] to remove. *)
Definition trimmed (s : str) : Prop := strip s = s.

(** ** A run of the handler *)

(** A run of the handler's [try] block from [c] to [c'] with result
    [r]: whether it made the forward call, with what outcome, and what
    it wrote. *)
Inductive ran (upstream_of : ForwardCall -> upstream) (c c' : Conn)
    (r : result unit) : Prop :=
| ran_without_call :
    same_but_pending c c' ->
    (r = Return tt \/ r = OutOfFuel
     \/ exists e, r = Raise e /\ is_Exception e = true) ->
    ran upstream_of c c' r
| ran_with_call (call : ForwardCall) (data : bytes) :
    self c' = set_stats (self c)
                (fst (forward_request (upstream_of call) (stats (self c)))) ->
    forwarded c' = forwarded c ++ [call] ->
    written (writer c') = written (writer c) ++ data ->
    closed (writer c') = closed (writer c) ->
    ending (reader c') = ending (reader c) ->
    limit (reader c') = limit (reader c) ->
    ((exists status text,
        snd (forward_request (upstream_of call) (stats (self c)))
        = Return (status, text)
        /\ (r = Return tt \/ exists e, r = Raise e /\ is_Exception e = true))
     \/ (exists e,
           upstream_of call = Failed e /\ is_Exception e = false
           /\ r = Raise e /\ data = [])) ->
    ran upstream_of c c' r.

(** ** More sample inputs *)

Module Cases.

Definition environment : gmap str str :=
  {[ lit "PROXY_PORT" := lit "8081"; lit "MAX_CONNECTIONS" := lit "many" ]}.

Definition no_args : InitArgs :=
  {| arg_proxy_host := None; arg_proxy_port := None;
     arg_api_host := None; arg_api_port := None;
     arg_target_url := None; arg_max_connections := None |}.

Definition all_args : InitArgs :=
  {| arg_proxy_host := Some (lit "127.0.0.1"); arg_proxy_port := Some 8888%Z;
     arg_api_host := Some (lit "127.0.0.1"); arg_api_port := Some 9999%Z;
     arg_target_url := Some (lit "http://upstream:80");
     arg_max_connections := Some 5%Z |}.

(** An upstream whose exchange is cancelled. *)
Definition cancelled (call : ForwardCall) : upstream :=
  Failed (Exn CancelledError []).

Definition head_without_end : bytes :=
  Samples.ascii_bytes "GET / HTTP/1.1" ++ Samples.crlf
  ++ Samples.ascii_bytes "Host: x" ++ Samples.crlf
  ++ Samples.ascii_bytes "Accept: */".

Definition post_twice (first second body : string) : bytes :=
  Samples.ascii_bytes "POST /data HTTP/1.1" ++ Samples.crlf
  ++ Samples.ascii_bytes "Content-Length: " ++ Samples.ascii_bytes first
  ++ Samples.crlf
  ++ Samples.ascii_bytes "Content-Length: " ++ Samples.ascii_bytes second
  ++ Samples.crlf ++ Samples.crlf
  ++ Samples.ascii_bytes body.



End Cases.


(** What the header loop guarantees of the dictionary it builds: no key
    holds a colon, no key or value holds a line feed, and keys and
    values have no blanks left at either end. *)
Definition clean (headers : gmap str str) : Prop :=
  forall key value, headers !! key = Some value ->
    (COLON ∉ key) /\ (LF ∉ key) /\ (LF ∉ value)
    /\ trimmed key /\ trimmed value.

(** ** Runs of the loop *)

(** No step of the run is a reset of the counters. *)
Definition without_reset (evs : list Loop.event) : bool :=
  forallb (fun ev => negb (Loop.is_reset ev)) evs.

(** The number of calls of the run that were cancelled inside the
    upstream exchange. *)
Fixpoint cancelled_exchanges (evs : list Loop.event) : nat :=
  match evs with
  | [] => 0
  | Loop.CancelExchange :: evs' => S (cancelled_exchanges evs')
  | _ :: evs' => cancelled_exchanges evs'
  end.

(** ** What the handler reads of the configuration *)

(** The connection with [n] in place of [max_connections]. *)
Definition with_limit (n : Z) (c : Conn) : Conn :=
  {| self := {| target_url := target_url (self c);
                max_connections := n;
                stats := stats (self c) |};
     reader := reader c;
     writer := writer c;
     forwarded := forwarded c |}.

(** A computation on a connection that never looks at
    [max_connections]: with another value there it does the same and
    leaves that value. *)
Definition blind {A} (m : M Conn A) : Prop :=
  forall n c, m (with_limit n c) = (with_limit n (fst (m c)), snd (m c)).

(** ** The awaits of the handler *)

(** What an await that has no deadline comes to: it resumes, it raises,
    or it never resumes. *)
Inductive awaited :=
| Resumes
| Throws (e : exn)
| Suspends.

(** What the surroundings of a handler task do to its awaits, besides
    what the client sends and how the upstream answers: an exception
    that lands in a read started on a given connection state (the
    cancellation of the task, a reset of the connection by the client);
    what [await writer.drain()] and [await writer.wait_closed()] come to
    (the client takes what is written; it resets the connection; it
    reads nothing and the wait goes on; the task is cancelled there). *)
Record Awaits := {
  read_lands : Conn -> option exn;
  drain_gives : Conn -> awaited;
  wait_closed_gives : Conn -> awaited
}.

(** Nothing lands in a read, and the client takes what is written. *)
Definition quiet : Awaits :=
  {| read_lands := fun _ => None;
     drain_gives := fun _ => Resumes;
     wait_closed_gives := fun _ => Resumes |}.

(** No await of the handler that is without a deadline stays
    suspended. *)
Definition never_suspends (w : Awaits) : Prop :=
  forall c, drain_gives w c <> Suspends /\ wait_closed_gives w c <> Suspends.

Section HandlerWithAwaits.

Variable format_value : json -> str.
Variable upstream_of : ForwardCall -> upstream.
Variable w : Awaits.

(** A read in which an exception may land. *)
Definition landing {A} (m : M Conn A) : M Conn A :=
  fun c =>
    match read_lands w c with
    | Some e => (c, Raise e)
    | None => m c
    end.

(** The header loop, as [read_headers]. *)
Fixpoint read_headers_in (fuel : nat) (headers : gmap str str)
  : M Conn (gmap str str) :=
  match fuel with
  | O => fun c => (c, OutOfFuel)
  | S fuel' =>
      do header_line <- landing wait_for_readline ;;
      if is_blank_line header_line then ret headers
      else
        let header_line := rstrip_crlf (latin1_decode header_line) in
        if contains COLON header_line then
          match split COLON 1 header_line with
          | [key; value] =>
              read_headers_in fuel' (<[strip key := strip value]> headers)
          | _ => raise_cls ValueError
          end
        else read_headers_in fuel' headers
  end.

(** "Read body if present", as [read_body]. *)
Definition read_body_in (headers : gmap str str) : M Conn (option bytes) :=
  match headers !! lit "Content-Length" with
  | Some v =>
      do content_length <- int_of v ;;
      do data <- landing (wait_for_readexactly content_length) ;;
      ret (Some data)
  | None => ret None
  end.

(** The [try] block from the target on, up to its last write: [true]
    says that the response is written and [await writer.drain()] comes
    next. *)
Definition after_headers_in (method path http_version : str)
    (headers : gmap str str) : M Conn bool :=
  fun c =>
    let target_url := format_value (target_url (self c)) ++ path in
    (do body <- read_body_in headers ;;
     do answer <- call_forward upstream_of
                    {| fc_method := method;
                       fc_url := target_url;
                       fc_headers := headers;
                       fc_data := body |} ;;
     do _ <- send_response http_version (fst answer) (snd answer) ;;
     ret true) c.

(** The [try] block up to its last write; [false] is one of its two
    [return] statements. *)
Definition handle_request_in (fuel : nat) : M Conn bool :=
  do request_line <- landing wait_for_readline ;;
  match request_line with
  | [] => ret false
  | _ :: _ =>
      let request_line := rstrip_crlf (latin1_decode request_line) in
      let parts := split SP 2 request_line in
      if (length parts <? 3)%nat then ret false
      else
        match parts with
        | [method; path; http_version] =>
            do headers <- read_headers_in fuel ∅ ;;
            after_headers_in method path http_version headers
        | _ => raise_cls ValueError
        end
  end.

(** [await writer.drain()], the last statement of the [try] block:
    [None] when it never resumes. *)
Definition drained (c : Conn) (r : result bool) : option (result unit) :=
  match r with
  | Return true =>
      match drain_gives w c with
      | Resumes => Some (Return tt)
      | Throws e => Some (Raise e)
      | Suspends => None
      end
  | Return false => Some (Return tt)
  | Raise e => Some (Raise e)
  | OutOfFuel => Some OutOfFuel
  end.

(** The two [except] clauses: they log and the handler goes on to
    return; anything else is still being raised. *)
Definition excepted (r : result unit) : result unit :=
  match r with
  | Raise e => if is_TimeoutError e || is_Exception e then Return tt else Raise e
  | _ => r
  end.

(** [handle_proxy_request] with its awaits.  The result is [None] when
    the handler stays suspended in an await without a deadline, and
    [OutOfFuel] when the header loop has not ended.  An exception raised
    by [await writer.wait_closed()] in the [finally] clause takes the
    place of what the handler was returning or raising. *)
Definition handle_proxy_request_in (fuel : nat) (c : Conn)
  : Conn * option (result unit) :=
  let '(c1, r) := handle_request_in fuel c in
  match drained c1 r with
  | None => (c1, None)
  | Some OutOfFuel => (c1, Some OutOfFuel)
  | Some r1 =>
      let c2 := close c1 in
      match wait_closed_gives w c2 with
      | Resumes => (c2, Some (excepted r1))
      | Throws e => (c2, Some (Raise e))
      | Suspends => (c2, None)
      end
  end.

End HandlerWithAwaits.

(** How a run of the handler from [c] stands: returned or raising
    with the writer closed (and what it raises is accounted for), or
    short of the [finally] clause. *)
Definition exits (upstream_of : ForwardCall -> upstream) (w : Awaits)
    (c : Conn) (out : Conn * option (result unit)) : Prop :=
  match snd out with
  | Some (Return _) =>
      closed (writer (fst out)) = true
      /\ wait_closed_gives w (fst out) = Resumes
  | Some (Raise e) =>
      closed (writer (fst out)) = true
      /\ (wait_closed_gives w (fst out) = Throws e
          \/ (wait_closed_gives w (fst out) = Resumes
              /\ is_Exception e = false
              /\ ((exists c', read_lands w c' = Some e
                     /\ forwarded (fst out) = forwarded c
                     /\ written (writer (fst out)) = written (writer c))
                  \/ (exists call, upstream_of call = Failed e
                        /\ forwarded (fst out) = forwarded c ++ [call]
                        /\ written (writer (fst out)) = written (writer c))
                  \/ (exists c1, fst out = close c1
                        /\ drain_gives w c1 = Throws e))))
  | Some OutOfFuel => closed (writer (fst out)) = closed (writer c)
  | None =>
      (drain_gives w (fst out) = Suspends
       /\ closed (writer (fst out)) = closed (writer c))
      \/ (wait_closed_gives w (fst out) = Suspends
          /\ closed (writer (fst out)) = true)
  end.

(** A client that reads nothing of a response too long for the
    buffers: the drain never resumes. *)
Definition unread : Awaits :=
  {| read_lands := fun _ => None;
     drain_gives := fun _ => Suspends;
     wait_closed_gives := fun _ => Resumes |}.

(** A client that resets the connection once the response is sent. *)
Definition reset_after_response : Awaits :=
  {| read_lands := fun _ => None;
     drain_gives := fun _ => Resumes;
     wait_closed_gives := fun _ => Throws (Exn OSError (lit "Connection reset by peer")) |}.

(** The task is cancelled while it waits for a line it has not got. *)
Definition cancelled_in_read : Awaits :=
  {| read_lands := fun c =>
       match take_line (pending (reader c)) with
       | Some _ => None
       | None => Some (Exn CancelledError [])
       end;
     drain_gives := fun _ => Resumes;
     wait_closed_gives := fun _ => Resumes |}.
(** * Properties *)

(** ** Text *)

Lemma cut_Some sep s a b :
  cut sep s = Some (a, b) -> s = a ++ sep :: b /\ (sep ∉ a).
Proof.
  revert a b. induction s as [|c s IH]; intros a b; simpl; [discriminate|].
  destruct (N.eqb_spec c sep) as [->|Hne].
  - intros [= <- <-]. split; [reflexivity|]. apply not_elem_of_nil.
  - destruct (cut sep s) as [[a' b']|]; [|discriminate].
    intros [= <- <-]. destruct (IH a' b' eq_refl) as [-> Hnot].
    split; [reflexivity|]. rewrite elem_of_cons. intros [Heq|Hin]; [congruence|tauto].
Qed.

Lemma cut_None sep s : cut sep s = None <-> sep ∉ s.
Proof.
  induction s as [|c s IH]; simpl.
  - split; [intros _; apply not_elem_of_nil|reflexivity].
  - rewrite not_elem_of_cons. destruct (N.eqb_spec c sep) as [->|Hne].
    + split; [discriminate|]. intros [Hc _]. congruence.
    + destruct (cut sep s) as [[a b]|].
      * split; [discriminate|]. intros [_ Hs]. apply IH in Hs. discriminate.
      * split; [|reflexivity]. intros _. split; [congruence|]. by apply IH.
Qed.

Lemma cut_app sep a b : sep ∉ a -> cut sep (a ++ sep :: b) = Some (a, b).
Proof.
  induction a as [|c a IH]; simpl; intros Hnot.
  - by rewrite N.eqb_refl.
  - apply not_elem_of_cons in Hnot as [Hc Ha].
    destruct (N.eqb_spec c sep) as [->|_]; [congruence|]. by rewrite IH.
Qed.

(** A line either has fewer than three parts, or is made of a first
    part without a blank, a second part without a blank, and a rest. *)
Lemma split_request_line line :
  ((length (split SP 2 line) <? 3)%nat = true /\ (length (split SP 2 line) < 3)%nat)
  \/ (exists m p v,
         split SP 2 line = [m; p; v] /\ (length (split SP 2 line) <? 3)%nat = false /\
         line = m ++ SP :: p ++ SP :: v /\ (SP ∉ m) /\ (SP ∉ p)).
Proof.
  simpl. destruct (cut SP line) as [[m r]|] eqn:H1; [|left; simpl; split; [done|lia]].
  destruct (cut SP r) as [[p v]|] eqn:H2; [|left; simpl; split; [done|lia]].
  right. exists m, p, v. apply cut_Some in H1 as [-> Hm], H2 as [-> Hp]. done.
Qed.

Lemma count_none sep s : sep ∉ s -> count sep s = 0%nat.
Proof.
  induction s as [|c s IH]; [done|]. intros [Hc Hs]%not_elem_of_cons. simpl.
  destruct (N.eqb_spec c sep) as [->|_]; [done|]. by apply IH.
Qed.

Lemma count_app sep a b : count sep (a ++ b) = (count sep a + count sep b)%nat.
Proof.
  induction a as [|c a IH]; [done|]. simpl. destruct (c =? sep); simpl; by rewrite IH.
Qed.

Lemma count_cut sep s :
  match cut sep s with
  | Some (a, b) => count sep s = S (count sep b)
  | None => count sep s = 0%nat
  end.
Proof.
  destruct (cut sep s) as [[a b]|] eqn:Hc.
  - apply cut_Some in Hc as [-> Ha]. rewrite count_app, (count_none _ _ Ha).
    simpl. by rewrite N.eqb_refl.
  - apply count_none. by apply cut_None.
Qed.

(** Splitting at most twice gives three parts exactly when the line has
    two blanks or more. *)
Lemma split_parts_count line :
  (length (split SP 2 line) < 3)%nat <-> (count SP line < 2)%nat.
Proof.
  simpl. pose proof (count_cut SP line) as H1.
  destruct (cut SP line) as [[m r]|]; [|rewrite H1; simpl; lia].
  pose proof (count_cut SP r) as H2.
  destruct (cut SP r) as [[p v]|]; rewrite H1, H2; simpl; lia.
Qed.

Lemma split_three m p v :
  (SP ∉ m) -> (SP ∉ p) -> split SP 2 (m ++ SP :: p ++ SP :: v) = [m; p; v].
Proof. intros Hm Hp. simpl. by rewrite (cut_app _ _ _ Hm), (cut_app _ _ _ Hp). Qed.

Lemma split_colon line :
  contains COLON line = true ->
  exists k v, cut COLON line = Some (k, v) /\ split COLON 1 line = [k; v].
Proof.
  unfold contains. simpl. destruct (cut COLON line) as [[k v]|]; [|discriminate].
  intros _. by exists k, v.
Qed.

Lemma contains_cut sep s : contains sep s = false <-> cut sep s = None.
Proof. unfold contains. destruct (cut sep s); split; congruence. Qed.

(** *** latin-1 *)

Lemma latin1_encode_decode b : latin1_encode (latin1_decode b) = Some b.
Proof.
  induction b as [|x b IH]; simpl; [reflexivity|].
  by rewrite Byte.of_to_N, IH.
Qed.


Lemma latin1_decode_latin1 b : latin1 (latin1_decode b).
Proof.
  induction b as [|x b IH]; constructor; [|exact IH].
  pose proof (Byte.to_N_bounded x). lia.
Qed.

Lemma latin1_lit s : latin1 (lit s).
Proof.
  unfold lit. induction (list_ascii_of_string s) as [|a l IH]; constructor; [|exact IH].
  apply N_ascii_bounded.
Qed.

Lemma latin1_encode_total s : latin1 s -> exists b, latin1_encode s = Some b /\ latin1_decode b = s.
Proof.
  induction 1 as [|c s Hc _ [b [IH1 IH2]]]; simpl; [by exists []|].
  destruct (Byte.of_N c) as [x|] eqn:Hx.
  - rewrite IH1. exists (x :: b). split; [reflexivity|]. simpl.
    apply Byte.to_of_N in Hx. by rewrite Hx, IH2.
  - apply Byte.of_N_None_iff in Hx. lia.
Qed.

Lemma latin1_app a b : latin1 a -> latin1 b -> latin1 (a ++ b).
Proof. apply Forall_app_2. Qed.

Lemma latin1_encode_app a b x y :
  latin1_encode a = Some x -> latin1_encode b = Some y ->
  latin1_encode (a ++ b) = Some (x ++ y).
Proof.
  revert x. induction a as [|c a IH]; simpl; intros x.
  - by intros [= <-].
  - destruct (Byte.of_N c); [|discriminate].
    destruct (latin1_encode a) as [bs|]; [|discriminate].
    intros [= <-] Hb. by rewrite (IH bs eq_refl Hb).
Qed.

Lemma lstrip_by_suffix p s : exists a, s = a ++ lstrip_by p s.
Proof.
  induction s as [|c s [a IH]]; simpl; [by exists []|].
  destruct (p c); [|by exists []]. exists (c :: a). simpl. by f_equal.
Qed.

Lemma latin1_lstrip p s : latin1 s -> latin1 (lstrip_by p s).
Proof.
  intros H. destruct (lstrip_by_suffix p s) as [a Ha]. rewrite Ha in H.
  by apply Forall_app in H as [_ H].
Qed.

Lemma latin1_rstrip p s : latin1 s -> latin1 (rstrip_by p s).
Proof.
  intros H. unfold rstrip_by, latin1. apply Forall_rev, latin1_lstrip. by apply Forall_rev.
Qed.

(** ** Reading from the client *)

Lemma take_line_cons x b :
  take_line (x :: b) =
  if Byte.eqb x x0a then Some ([x], b)
  else match take_line b with
       | Some (l, rest) => Some (x :: l, rest)
       | None => None
       end.
Proof. destruct x; reflexivity. Qed.

Lemma take_line_app b l rest tail :
  take_line b = Some (l, rest) ->
  b = l ++ rest /\ take_line (b ++ tail) = Some (l, rest ++ tail).
Proof.
  revert l rest. induction b as [|x b IH]; intros l rest; [discriminate|].
  rewrite <- app_comm_cons, !take_line_cons. destruct (Byte.eqb x x0a).
  - by intros [= <- <-].
  - destruct (take_line b) as [[l' rest']|]; [|discriminate].
    intros [= <- <-]. destruct (IH l' rest' eq_refl) as [-> ->]. done.
Qed.

Lemma take_line_whole l tail :
  is_line l = true -> take_line (l ++ tail) = Some (l, tail).
Proof.
  unfold is_line. destruct (take_line l) as [[a [|? ?]]|] eqn:H; try discriminate.
  intros _. destruct (take_line_app _ _ _ tail H) as [-> ->].
  by rewrite app_nil_r.
Qed.

Lemma wait_for_readline_line c l tail :
  is_line l = true -> fits (limit (reader c)) l = true ->
  pending (reader c) = l ++ tail ->
  wait_for_readline c = (advance tail c, Return l).
Proof.
  intros Hl Hfit Hp. unfold wait_for_readline. rewrite Hp, take_line_whole by done.
  unfold fits in Hfit. apply N.leb_le in Hfit.
  by destruct (N.ltb_spec (limit (reader c) + 1) (N.of_nat (length l))); [lia|].
Qed.

Lemma same_but_pending_refl c : same_but_pending c c.
Proof. by repeat split. Qed.

Lemma same_but_pending_trans c1 c2 c3 :
  same_but_pending c1 c2 -> same_but_pending c2 c3 -> same_but_pending c1 c3.
Proof. intros (?&?&?&?&?) (?&?&?&?&?). repeat split; congruence. Qed.

Lemma advance_frame rest c : same_but_pending c (advance rest c).
Proof. by repeat split. Qed.

Lemma wait_for_readline_frame c c' r :
  wait_for_readline c = (c', r) -> same_but_pending c c'.
Proof.
  unfold wait_for_readline.
  destruct (take_line (pending (reader c))) as [[l rest]|].
  - destruct (_ <? _); intros [= <- _];
      [apply same_but_pending_refl|apply advance_frame].
  - destruct (_ <? _); [intros [= <- _]; apply same_but_pending_refl|].
    destruct (ending (reader c)) eqn:He; intros [= <- _];
      [apply advance_frame|apply same_but_pending_refl].
Qed.

Lemma wait_for_readexactly_frame n c c' r :
  wait_for_readexactly n c = (c', r) -> same_but_pending c c'.
Proof.
  unfold wait_for_readexactly.
  destruct (n <? 0)%Z; [intros [= <- _]; apply same_but_pending_refl|].
  destruct (n <=? _)%Z; [intros [= <- _]; apply advance_frame|].
  destruct (ending (reader c)) eqn:He; intros [= <- _];
    [apply advance_frame|apply same_but_pending_refl].
Qed.

(** One turn of the header loop.  The unpacking of the two parts cannot
    fail: a line with a colon always splits in two. *)
Lemma read_headers_S fuel h c :
  read_headers (S fuel) h c =
  match wait_for_readline c with
  | (c1, Return raw) =>
      if is_blank_line raw then (c1, Return h)
      else match header_of_line (decode_line raw) with
           | Some (k, v) => read_headers fuel (<[k := v]> h) c1
           | None => read_headers fuel h c1
           end
  | (c1, Raise e) => (c1, Raise e)
  | (c1, OutOfFuel) => (c1, OutOfFuel)
  end.
Proof.
  cbn [read_headers]. unfold bind.
  destruct (wait_for_readline c) as [c1 [raw|e|]]; [|done..].
  destruct (is_blank_line raw); [done|].
  fold (decode_line raw). unfold header_of_line.
  destruct (contains COLON (decode_line raw)) eqn:Hc.
  - destruct (split_colon _ Hc) as (k & v & -> & ->). done.
  - apply contains_cut in Hc. by rewrite Hc.
Qed.

Lemma read_headers_frame fuel h c c' r :
  read_headers fuel h c = (c', r) -> same_but_pending c c'.
Proof.
  revert h c. induction fuel as [|fuel IH]; intros h c.
  - intros [= <- _]. apply same_but_pending_refl.
  - rewrite read_headers_S.
    destruct (wait_for_readline c) as [c1 [raw|e|]] eqn:Hr;
      pose proof (wait_for_readline_frame _ _ _ Hr) as Hf;
      [|by intros [= <- _]..].
    destruct (is_blank_line raw); [by intros [= <- _]|].
    destruct (header_of_line (decode_line raw)) as [[k v]|];
      intros H; (eapply same_but_pending_trans; [exact Hf|eapply IH, H]).
Qed.

(** One more unit of fuel changes nothing once the loop has ended. *)
Lemma read_headers_more_fuel fuel h c c' hs :
  read_headers fuel h c = (c', Return hs) ->
  read_headers (S fuel) h c = (c', Return hs).
Proof.
  revert h c. induction fuel as [|fuel IH]; intros h c; [discriminate|].
  rewrite (read_headers_S (S fuel)), (read_headers_S fuel).
  destruct (wait_for_readline c) as [c1 [raw|e|]]; try done.
  destruct (is_blank_line raw); [done|].
  destruct (header_of_line (decode_line raw)) as [[k v]|]; apply IH.
Qed.

(** Once the client has closed its side and nothing is pending, the
    loop never ends: no fuel is enough. *)
Lemma read_headers_spins fuel h c :
  pending (reader c) = [] -> ending (reader c) = Closes ->
  snd (read_headers fuel h c) = OutOfFuel.
Proof.
  revert c. induction fuel as [|fuel IH]; intros c Hp He; [reflexivity|].
  rewrite read_headers_S. unfold wait_for_readline. rewrite Hp, He.
  cbn [take_line].
  destruct (N.ltb_spec (limit (reader c)) (N.of_nat (length (@nil byte))));
    [simpl in *; lia|].
  cbn. by apply IH.
Qed.

(** The header block: [lines] are header lines, a blank line ends them.
    The loop returns, has consumed the block and nothing more, and maps
    each key to the value of the last line carrying it (to its value in
    [h] when no line does). *)
Lemma read_headers_block lines : forall fuel h c blank tail,
  Forall (fun l => is_header_line l = true) lines ->
  is_line blank = true -> is_blank_line blank = true ->
  Forall (fun l => fits (limit (reader c)) l = true) (lines ++ [blank]) ->
  pending (reader c) = concat lines ++ blank ++ tail ->
  (length lines < fuel)%nat ->
  exists headers,
    read_headers fuel h c = (advance tail c, Return headers) /\
    forall key,
      headers !! key = match last_value key (map decode_line lines) with
                       | Some v => Some v
                       | None => h !! key
                       end.
Proof.
  induction lines as [|l lines IH];
    intros fuel h c blank tail Hls Hb1 Hb2 Hfit Hp Hfuel.
  - destruct fuel as [|fuel]; [simpl in Hfuel; lia|]. simpl in Hp.
    apply Forall_cons in Hfit as [Hfit _].
    exists h. split; [|done].
    by rewrite read_headers_S, (wait_for_readline_line c blank tail Hb1 Hfit Hp), Hb2.
  - destruct fuel as [|fuel]; [simpl in Hfuel; lia|].
    apply Forall_cons in Hls as [Hl Hls].
    apply andb_true_iff in Hl as [Hl1 Hl2]. apply negb_true_iff in Hl2.
    rewrite <- app_comm_cons in Hfit. apply Forall_cons in Hfit as [Hfit1 Hfit].
    simpl in Hp. rewrite <- app_assoc in Hp.
    rewrite read_headers_S, (wait_for_readline_line c l _ Hl1 Hfit1 Hp), Hl2.
    set (c1 := advance _ c).
    assert (Hp1 : pending (reader c1) = concat lines ++ blank ++ tail) by done.
    assert (Hfuel1 : (length lines < fuel)%nat) by (simpl in Hfuel; lia).
    assert (Hadv : advance tail c1 = advance tail c) by done.
    cbn [map last_value].
    destruct (header_of_line (decode_line l)) as [[k v]|].
    + destruct (IH fuel (<[k := v]> h) c1 blank tail Hls Hb1 Hb2 Hfit Hp1 Hfuel1)
        as (hs & Hrun & Hlook).
      exists hs. rewrite <- Hadv. split; [exact Hrun|]. intros key. rewrite Hlook.
      destruct (last_value key (map decode_line lines)); [done|].
      rewrite lookup_insert. by case_bool_decide; case_decide.
    + destruct (IH fuel h c1 blank tail Hls Hb1 Hb2 Hfit Hp1 Hfuel1)
        as (hs & Hrun & Hlook).
      exists hs. rewrite <- Hadv. split; [exact Hrun|]. intros key. rewrite Hlook.
      by destruct (last_value key (map decode_line lines)).
Qed.

(** ** The stages of the handler *)

Lemma latin1_decode_line raw : latin1 (decode_line raw).
Proof. apply latin1_rstrip, latin1_decode_latin1. Qed.

Lemma response_line_encodes v status :
  latin1 v -> exists line, latin1_encode (response_line v status) = Some line.
Proof.
  intros Hv. destruct (latin1_encode_total (response_line v status)) as (b & Hb & _); [|by exists b].
  unfold response_line, str_of_Z. repeat apply latin1_app; try apply latin1_lit; [done|].
  repeat constructor.
Qed.

Lemma response_headers_encodes text :
  exists head, latin1_encode (response_headers text) = Some head.
Proof.
  destruct (latin1_encode_total (response_headers text)) as (b & Hb & _); [|by exists b].
  unfold response_headers, str_of_Z. repeat apply latin1_app; try apply latin1_lit;
    repeat constructor.
Qed.

(** The three writes of a response: the line and the header block
    always go out; the payload goes out when the text can be encoded. *)
Lemma send_response_writes v status text c line head :
  latin1_encode (response_line v status) = Some line ->
  latin1_encode (response_headers text) = Some head ->
  send_response v status text c =
  match utf8_encode text with
  | Some payload => (add_written (line ++ head ++ payload) c, Return tt)
  | None => (add_written (line ++ head) c, Raise (Exn UnicodeEncodeError []))
  end.
Proof.
  intros Hl Hh. unfold send_response, bind. rewrite Hl, Hh. cbn.
  destruct (utf8_encode text) as [payload|]; cbn;
    unfold write, add_written, set_writer; cbn; by rewrite <- !app_assoc.
Qed.

Lemma head_decoded_frame fuel c m p v hs c2 :
  head_decoded fuel c m p v hs c2 -> same_but_pending c c2.
Proof.
  intros (raw & c1 & H1 & _ & _ & H2).
  eapply same_but_pending_trans; [eapply wait_for_readline_frame, H1|eapply read_headers_frame, H2].
Qed.

Lemma head_decoded_parts fuel c m p v hs c2 :
  head_decoded fuel c m p v hs c2 ->
  exists raw, decode_line raw = m ++ SP :: p ++ SP :: v /\ (SP ∉ m) /\ (SP ∉ p).
Proof.
  intros (raw & c1 & _ & _ & Hs & _). exists raw. fold (decode_line raw) in Hs.
  destruct (split_request_line (decode_line raw)) as [[_ Hlt]|(m' & p' & v' & Hs' & _ & ? & ? & ?)].
  - rewrite Hs in Hlt. simpl in Hlt. lia.
  - rewrite Hs in Hs'. by injection Hs' as <- <- <-.
Qed.

Lemma head_decoded_version_latin1 fuel c m p v hs c2 :
  head_decoded fuel c m p v hs c2 -> latin1 v.
Proof.
  intros H. destruct (head_decoded_parts _ _ _ _ _ _ _ H) as (raw & Hl & _).
  pose proof (latin1_decode_line raw) as Hlat. rewrite Hl in Hlat.
  apply Forall_app in Hlat as [_ Hlat]. apply Forall_cons in Hlat as [_ Hlat].
  apply Forall_app in Hlat as [_ Hlat]. by apply Forall_cons in Hlat as [_ Hlat].
Qed.

(** *** Reading the body *)

Lemma read_body_absent hs c :
  hs !! lit "Content-Length" = None -> read_body hs c = (c, Return None).
Proof. intros H. unfold read_body. by rewrite H. Qed.

Lemma read_body_invalid hs c val :
  hs !! lit "Content-Length" = Some val -> py_int val = None ->
  read_body hs c = (c, Raise (Exn ValueError [])).
Proof. intros H Hi. unfold read_body, bind, int_of. by rewrite H, Hi. Qed.

Lemma read_body_exact hs c val n :
  hs !! lit "Content-Length" = Some val -> py_int val = Some n ->
  (0 <= n <= Z.of_nat (length (pending (reader c))))%Z ->
  read_body hs c
  = (advance (drop (Z.to_nat n) (pending (reader c))) c,
     Return (Some (take (Z.to_nat n) (pending (reader c))))).
Proof.
  intros H Hi Hn. unfold read_body, bind, int_of. rewrite H, Hi. cbn.
  unfold wait_for_readexactly.
  destruct (Z.ltb_spec n 0); [lia|]. destruct (Z.leb_spec n (Z.of_nat (length (pending (reader c))))); [done|lia].
Qed.


Lemma read_body_frame hs c c' r :
  read_body hs c = (c', r) -> same_but_pending c c'.
Proof.
  unfold read_body. destruct (hs !! lit "Content-Length") as [val|];
    [|intros [= <- _]; apply same_but_pending_refl].
  unfold bind, int_of. destruct (py_int val) as [n|];
    [|intros [= <- _]; apply same_but_pending_refl].
  cbn. destruct (wait_for_readexactly n c) as [c1 [d|e|]] eqn:Hr;
    intros [= <- _]; eapply wait_for_readexactly_frame, Hr.
Qed.

Section HandlerStages.

Variable format_value : json -> str.
Variable upstream_of : ForwardCall -> upstream.


Lemma handle_request_three_parts fuel c c1 raw m p v :
  wait_for_readline c = (c1, Return raw) -> raw <> [] ->
  split SP 2 (decode_line raw) = [m; p; v] ->
  handle_request format_value upstream_of fuel c
  = (do headers <- read_headers fuel ∅ ;;
     after_headers format_value upstream_of m p v headers) c1.
Proof.
  intros H1 Hne Hs. unfold handle_request, bind. rewrite H1.
  destruct raw as [|x raw]; [done|]. fold (decode_line (x :: raw)). by rewrite Hs.
Qed.

Lemma handle_request_after_head fuel c m p v hs c2 :
  head_decoded fuel c m p v hs c2 ->
  handle_request format_value upstream_of fuel c
  = after_headers format_value upstream_of m p v hs c2.
Proof.
  intros (raw & c1 & H1 & Hne & Hs & H2).
  unfold handle_request, bind. rewrite H1.
  destruct raw as [|x raw]; [done|]. rewrite Hs. cbn. by rewrite H2.
Qed.

(** A failure to read the body ends the request: the connection is
    closed, nothing was written, nothing was forwarded. *)
Lemma body_failure_closes fuel c m p v hs c2 c3 e :
  head_decoded fuel c m p v hs c2 ->
  read_body hs c2 = (c3, Raise e) -> is_Exception e = true ->
  same_but_pending c2 c3 ->
  handle_proxy_request format_value upstream_of fuel c = (close c3, Return tt)
  /\ written (writer (close c3)) = written (writer c)
  /\ closed (writer (close c3)) = true
  /\ forwarded (close c3) = forwarded c.
Proof.
  intros Hh Hb He Hf.
  unfold handle_proxy_request.
  rewrite (handle_request_after_head _ _ _ _ _ _ _ Hh).
  unfold after_headers, bind. rewrite Hb, He, orb_true_r.
  destruct (head_decoded_frame _ _ _ _ _ _ _ Hh) as (_ & Hw & Hfw & _).
  destruct Hf as (_ & Hw' & Hfw' & _). cbn. rewrite Hw', Hw, Hfw', Hfw. done.
Qed.

(** Once the body is read the call is made, and it is the only one. *)
Lemma body_read_forwards fuel c m p v hs c2 c3 body :
  head_decoded fuel c m p v hs c2 ->
  read_body hs c2 = (c3, Return body) ->
  same_but_pending c2 c3 ->
  let out := handle_proxy_request format_value upstream_of fuel c in
  forwarded (fst out) = forwarded c ++ [the_call format_value m p hs body c]
  /\ reader (fst out) = reader c3.
Proof.
  intros Hh Hb Hf.
  unfold handle_proxy_request.
  rewrite (handle_request_after_head _ _ _ _ _ _ _ Hh).
  unfold after_headers, bind. rewrite Hb.
  destruct (head_decoded_frame _ _ _ _ _ _ _ Hh) as (Hs & Hw & Hfw & _).
  destruct Hf as (Hs' & Hw' & Hfw' & _).
  unfold call_forward, the_call. rewrite Hs.
  set (call := {| fc_method := m |}).
  destruct (forward_request (upstream_of call) (stats (self c3))) as [st [[status text]|e|]]; cbn.
  - destruct (response_line_encodes v status (head_decoded_version_latin1 _ _ _ _ _ _ _ Hh)) as [line Hl].
    destruct (response_headers_encodes text) as [head Hd].
    rewrite (send_response_writes _ _ _ _ _ _ Hl Hd).
    destruct (utf8_encode text); cbn; by rewrite Hfw', Hfw.
  - destruct (is_TimeoutError e || is_Exception e); cbn; by rewrite Hfw', Hfw.
  - cbn. by rewrite Hfw', Hfw.
Qed.

End HandlerStages.

(** ** UTF-8 lengths *)

Lemma utf8_encode_char_length c b :
  utf8_encode_char c = Some b ->
  (1 <= length b)%nat /\ (length b = 1%nat <-> is_ascii c = true).
Proof.
  unfold utf8_encode_char, is_ascii.
  destruct (c <? 128); [intros [= <-]; simpl; split; [lia|done]|].
  destruct (c <? 2048); [intros [= <-]; simpl; split; [lia|split; [lia|done]]|].
  destruct (c <? 65536).
  { destruct (is_surrogate c); [done|]. intros [= <-]; simpl; split; [lia|split; [lia|done]]. }
  destruct (c <? 1114112); [|done].
  intros [= <-]; simpl; split; [lia|split; [lia|done]].
Qed.

Lemma utf8_encode_length s b :
  utf8_encode s = Some b ->
  (length s <= length b)%nat /\
  (length b = length s <-> forallb is_ascii s = true).
Proof.
  revert b. induction s as [|c s IH]; intros b; simpl.
  - intros [= <-]. simpl. split; [lia|done].
  - destruct (utf8_encode_char c) as [x|] eqn:Hc; [|done].
    destruct (utf8_encode s) as [bs|]; [|done]. intros [= <-].
    destruct (utf8_encode_char_length _ _ Hc) as [H1 H2].
    destruct (IH bs eq_refl) as [H3 H4]. rewrite length_app, andb_true_iff.
    split; [lia|]. split.
    + intros H. split; [apply H2|apply H4]; lia.
    + intros [Ha Hs]. apply H2 in Ha. apply H4 in Hs. lia.
Qed.

Lemma utf8_encode_None s :
  utf8_encode s = None -> forallb is_ascii s = false /\ s <> [].
Proof.
  induction s as [|c s IH]; simpl; [done|].
  destruct (utf8_encode_char c) as [x|] eqn:Hc.
  - destruct (utf8_encode s); [done|]. intros _.
    destruct (IH eq_refl) as [-> _]. by rewrite andb_false_r.
  - intros _. split; [|done]. unfold utf8_encode_char in Hc. unfold is_ascii.
    by destruct (c <? 128).
Qed.

Section HandlerResponse.

Variable format_value : json -> str.
Variable upstream_of : ForwardCall -> upstream.

(** The whole run of the handler on a request that is read in full and
    for which [forward_request] returns. *)
Lemma handler_responds fuel c m p v hs c2 c3 body st status text :
  head_decoded fuel c m p v hs c2 ->
  read_body hs c2 = (c3, Return body) ->
  forward_request (upstream_of (the_call format_value m p hs body c2))
    (stats (self c3)) = (st, Return (status, text)) ->
  exists line head,
    latin1_encode (response_line v status) = Some line /\
    latin1_encode (response_headers text) = Some head /\
    handle_proxy_request format_value upstream_of fuel c
    = (close (add_written
                (line ++ head ++ match utf8_encode text with
                                 | Some payload => payload
                                 | None => []
                                 end)
                {| self := set_stats (self c3) st;
                   reader := reader c3;
                   writer := writer c3;
                   forwarded :=
                     forwarded c3 ++ [the_call format_value m p hs body c2] |}),
       Return tt).
Proof.
  intros Hh Hb Hfw.
  destruct (response_line_encodes v status (head_decoded_version_latin1 _ _ _ _ _ _ _ Hh))
    as [line Hl].
  destruct (response_headers_encodes text) as [head Hd].
  exists line, head. split; [done|]. split; [done|].
  unfold handle_proxy_request.
  rewrite (handle_request_after_head _ _ _ _ _ _ _ _ _ Hh).
  unfold after_headers, bind. rewrite Hb.
  unfold call_forward. fold (the_call format_value m p hs body c2). rewrite Hfw. cbn [fst snd].
  rewrite (send_response_writes _ _ _ _ _ _ Hl Hd).
  destruct (utf8_encode text); cbn; [done|]. by rewrite app_nil_r.
Qed.

End HandlerResponse.

(** ** From the bytes on the wire to the response *)

(** A request head on the wire is decoded: a whole request line of
    three parts, header lines, a blank line, all within the line limit,
    and fuel for one turn of the loop per line. *)
Lemma head_on_wire_is_decoded fuel c raw lines blank tail m p v :
  is_line raw = true ->
  split SP 2 (decode_line raw) = [m; p; v] ->
  Forall (fun l => is_header_line l = true) lines ->
  is_line blank = true -> is_blank_line blank = true ->
  Forall (fun l => fits (limit (reader c)) l = true) (raw :: lines ++ [blank]) ->
  pending (reader c) = raw ++ concat lines ++ blank ++ tail ->
  (length lines < fuel)%nat ->
  exists hs,
    head_decoded fuel c m p v hs (advance tail c)
    /\ forall key, hs !! key = last_value key (map decode_line lines).
Proof.
  intros Hraw Hparts Hls Hb1 Hb2 Hfit Hp Hfuel.
  apply Forall_cons in Hfit as [Hfit0 Hfit].
  pose proof (wait_for_readline_line c raw _ Hraw Hfit0 Hp) as Hread.
  destruct (read_headers_block lines fuel ∅
              (advance (concat lines ++ blank ++ tail) c) blank tail
              Hls Hb1 Hb2 Hfit eq_refl Hfuel) as (hs & Hrun & Hlook).
  exists hs. split.
  - exists raw, (advance (concat lines ++ blank ++ tail) c).
    split; [exact Hread|]. split; [by destruct raw|]. split; [exact Hparts|exact Hrun].
  - intros key. rewrite Hlook, lookup_empty.
    by destruct (last_value key (map decode_line lines)).
Qed.

(** *** The text of a synthetic 502 is ASCII *)

Lemma hex_digit_ascii d : d < 16 -> is_ascii (Dumps.hex_digit d) = true.
Proof.
  intros Hd. unfold Dumps.hex_digit, is_ascii.
  destruct (d <? 10); apply N.ltb_lt; lia.
Qed.

Lemma u_escape_ascii n : forallb is_ascii (Dumps.u_escape n) = true.
Proof.
  unfold Dumps.u_escape, Dumps.hex4. cbn [forallb].
  rewrite !hex_digit_ascii by (apply N.mod_lt; lia). done.
Qed.

Lemma escape_char_ascii c : forallb is_ascii (Dumps.escape_char c) = true.
Proof.
  unfold Dumps.escape_char.
  repeat (match goal with |- context [if ?b =? ?x then _ else _] =>
                     destruct (b =? x); [done|] end).
  destruct ((32 <=? c) && (c <=? 126)) eqn:E.
  - apply andb_true_iff in E as [_ E]. apply N.leb_le in E.
    cbn [forallb]. unfold is_ascii. rewrite andb_true_r. apply N.ltb_lt. lia.
  - destruct (c <? 65536); [apply u_escape_ascii|].
    cbv zeta. by rewrite forallb_app, !u_escape_ascii.
Qed.

Lemma dumps_str_ascii s : forallb is_ascii (Dumps.dumps_str s) = true.
Proof.
  unfold Dumps.dumps_str. cbn [forallb]. rewrite forallb_app. cbn.
  rewrite andb_true_r. induction s as [|c s IH]; [done|].
  cbn [flat_map]. by rewrite forallb_app, escape_char_ascii, IH.
Qed.

Lemma dumps_ascii items : forallb is_ascii (Dumps.dumps items) = true.
Proof.
  unfold Dumps.dumps. rewrite !forallb_app. cbn [lit]. 
  assert (H : forallb is_ascii (Dumps.dumps_items items) = true).
  { induction items as [|[k v] items IH]; [done|].
    destruct items as [|kv items].
    - cbn [Dumps.dumps_items]. by rewrite !forallb_app, !dumps_str_ascii.
    - assert (Heq : Dumps.dumps_items ((k, v) :: kv :: items)
                    = Dumps.dumps_str k ++ lit ": " ++ Dumps.dumps_str v ++ lit ", "
                      ++ Dumps.dumps_items (kv :: items)) by (by destruct kv).
      by rewrite Heq, !forallb_app, !dumps_str_ascii, IH. }
  by rewrite H.
Qed.

Lemma utf8_encode_ascii s :
  forallb is_ascii s = true -> utf8_encode s = Some (map byte_of s).
Proof.
  induction s as [|c s IH]; [done|]. cbn [forallb map utf8_encode].
  intros [Hc Hs]%andb_true_iff. rewrite (IH Hs).
  unfold utf8_encode_char. unfold is_ascii in Hc. by rewrite Hc.
Qed.

Section Gateway.

Variable format_value : json -> str.
Variable upstream_of : ForwardCall -> upstream.

(** X8.  When the upstream exchange fails with an [Exception], the
    client is answered: a 502 status line, the header block, and the
    JSON text of the failure, whose byte count is the announced
    length. *)
Lemma upstream_failure_answers_502 fuel c m p v hs c2 c3 body e :
  head_decoded fuel c m p v hs c2 ->
  read_body hs c2 = (c3, Return body) ->
  upstream_of (the_call format_value m p hs body c2) = Failed e ->
  is_Exception e = true ->
  let out := handle_proxy_request format_value upstream_of fuel c in
  let text := snd (bad_gateway e) in
  exists line head,
    latin1_encode (response_line v 502) = Some line
    /\ latin1_encode (response_headers text) = Some head
    /\ snd out = Return tt
    /\ closed (writer (fst out)) = true
    /\ written (writer (fst out))
       = written (writer c) ++ line ++ head ++ map byte_of text
    /\ length (map byte_of text) = length text.
Proof.
  intros Hh Hb Hup He out text. subst out.
  destruct (handler_responds format_value upstream_of fuel c m p v hs c2 c3 body
              (leave_forward (add_failed (enter_forward (stats (self c3)))))
              502%Z text Hh Hb) as (line & head & Hl & Hd & ->).
  { unfold forward_request. by rewrite Hup, He. }
  exists line, head. repeat (split; [done|]).
  rewrite (utf8_encode_ascii text) by apply dumps_ascii.
  destruct (head_decoded_frame _ _ _ _ _ _ _ Hh) as (_ & Hw & _).
  destruct (read_body_frame _ _ _ _ Hb) as (_ & Hw' & _).
  cbn. rewrite Hw', Hw. split; [done|]. by rewrite length_map.
Qed.

End Gateway.

(** ** The request line and the header block *)

Section Decoder.

Variable format_value : json -> str.
Variable upstream_of : ForwardCall -> upstream.

(** C4.  For every request line the handler receives: when the line has
    fewer than two blanks (so fewer than three parts when split at
    blanks at most twice) the handler returns with the connection
    closed, nothing written and nothing forwarded; when it has two or
    more, the method is the text before the first blank, the path the
    text between the first and the second blank, and the version all
    that follows the second blank, further blanks included, and the
    handler goes on with these three. *)
Theorem request_line_three_parts fuel c c1 raw :
  wait_for_readline c = (c1, Return raw) ->
  let line := decode_line raw in
  let parts := split SP 2 line in
  ((length parts < 3)%nat <-> (count SP line < 2)%nat)
  /\ ((count SP line < 2)%nat ->
      handle_proxy_request format_value upstream_of fuel c = (close c1, Return tt)
      /\ closed (writer (close c1)) = true
      /\ written (writer (close c1)) = written (writer c)
      /\ forwarded (close c1) = forwarded c)
  /\ ((2 <= count SP line)%nat ->
      exists method path http_version,
        line = method ++ SP :: path ++ SP :: http_version
        /\ (SP ∉ method) /\ (SP ∉ path)
        /\ parts = [method; path; http_version])
  /\ (forall method path http_version,
        line = method ++ SP :: path ++ SP :: http_version ->
        (SP ∉ method) -> (SP ∉ path) ->
        parts = [method; path; http_version]
        /\ handle_request format_value upstream_of fuel c
           = (do headers <- read_headers fuel ∅ ;;
              after_headers format_value upstream_of
                method path http_version headers) c1).
Proof.
  intros Hr line parts. subst line parts.
  destruct (wait_for_readline_frame _ _ _ Hr) as (_ & Hw & Hf & _).
  split; [apply split_parts_count|]. split; [|split].
  - intros Hlt%split_parts_count.
    unfold handle_proxy_request, handle_request, bind. rewrite Hr.
    fold (decode_line raw).
    destruct (split_request_line (decode_line raw))
      as [[Hlt1 _]|(m & p & v & Hs & _)]; [|rewrite Hs in Hlt; simpl in Hlt; lia].
    destruct raw as [|x raw]; [|rewrite Hlt1]; cbn; by rewrite Hw, Hf.
  - intros Hge.
    destruct (split_request_line (decode_line raw))
      as [[_ Hlt]|(m & p & v & Hs & _ & Hl & Hm & Hp)].
    + apply split_parts_count in Hlt. lia.
    + by exists m, p, v.
  - intros m p v Hl Hm Hp.
    pose proof (split_three m p v Hm Hp) as Hs. rewrite <- Hl in Hs.
    split; [exact Hs|].
    unfold handle_request, bind. rewrite Hr. fold (decode_line raw).
    destruct raw as [|x raw].
    { destruct m; discriminate Hl. }
    by rewrite Hs.
Qed.

(** C5.  For every block of header lines ended by a blank line (whole
    lines, each within the line limit of the stream): the loop returns (a
    line without a colon raises nothing), it has consumed the block and
    nothing after it, and each key maps to the value of the last line
    that carries it, where a line carries the key found before its first
    colon and the value found after it, both trimmed. *)
Theorem header_block_last_value_wins fuel c (lines : list bytes) blank tail :
  Forall (fun l => is_header_line l = true) lines ->
  is_line blank = true -> is_blank_line blank = true ->
  Forall (fun l => fits (limit (reader c)) l = true) (lines ++ [blank]) ->
  pending (reader c) = concat lines ++ blank ++ tail ->
  (length lines < fuel)%nat ->
  exists headers,
    read_headers fuel ∅ c = (advance tail c, Return headers)
    /\ forall key,
         headers !! key = last_value key (map decode_line lines).
Proof.
  intros Hls Hb1 Hb2 Hfit Hp Hfuel.
  destruct (read_headers_block lines fuel ∅ c blank tail Hls Hb1 Hb2 Hfit Hp Hfuel)
    as (hs & Hrun & Hlook).
  exists hs. split; [exact Hrun|]. intros key. rewrite Hlook, lookup_empty.
  by destruct (last_value key (map decode_line lines)).
Qed.

End Decoder.

Lemma request_line_three_parts_witness :
  let short := Samples.accept (Samples.ascii_bytes "GET /anything" ++ Samples.crlf) Closes in
  let long := Samples.accept (Samples.ascii_bytes "GET /a b HTTP/1.1" ++ Samples.crlf
                              ++ Samples.crlf) Closes in
  (closed (writer (fst (handle_proxy_request Samples.format_text
                          Samples.unreachable 4 short))) = true
   /\ written (writer (fst (handle_proxy_request Samples.format_text
                              Samples.unreachable 4 short))) = [])
  /\ handle_request Samples.format_text Samples.answers 4 long
     = (do headers <- read_headers 4 ∅ ;;
        after_headers Samples.format_text Samples.answers
          (lit "GET") (lit "/a") (lit "b HTTP/1.1") headers)
         (Samples.accept Samples.crlf Closes).
Proof.
  intros short long. split.
  - destruct (request_line_three_parts Samples.format_text Samples.unreachable 4 short
                (fst (wait_for_readline short))
                (Samples.ascii_bytes "GET /anything" ++ Samples.crlf)
                eq_refl) as (_ & H & _).
    destruct H as (-> & H1 & H2 & _); [vm_compute; lia|]. split; [exact H1|exact H2].
  - destruct (request_line_three_parts Samples.format_text Samples.answers 4 long
                (Samples.accept Samples.crlf Closes)
                (Samples.ascii_bytes "GET /a b HTTP/1.1" ++ Samples.crlf)
                eq_refl) as (_ & _ & _ & H).
    destruct (H (lit "GET") (lit "/a") (lit "b HTTP/1.1")) as [_ Hgo].
    + reflexivity.
    + vm_compute. intros Hin. by repeat (apply elem_of_cons in Hin as [?|Hin]; [done|]);
        apply elem_of_nil in Hin.
    + vm_compute. intros Hin. by repeat (apply elem_of_cons in Hin as [?|Hin]; [done|]);
        apply elem_of_nil in Hin.
    + exact Hgo.
Defined.

Lemma header_block_last_value_wins_witness :
  let lines := [Samples.ascii_bytes "Host:  a :1 " ++ Samples.crlf;
                Samples.ascii_bytes "no colon here" ++ Samples.crlf;
                Samples.ascii_bytes " Host : b" ++ [x0a]] in
  let c := Samples.accept (concat lines ++ Samples.crlf ++ Samples.ascii_bytes "rest") Stalls in
  exists headers,
    read_headers 4 ∅ c = (advance (Samples.ascii_bytes "rest") c, Return headers)
    /\ headers !! lit "Host" = Some (lit "b")
    /\ headers !! lit "no colon here" = None.
Proof.
  intros lines c.
  destruct (header_block_last_value_wins 4 c lines Samples.crlf (Samples.ascii_bytes "rest"))
    as (hs & Hrun & Hlook).
  - repeat constructor.
  - reflexivity.
  - reflexivity.
  - repeat constructor.
  - reflexivity.
  - simpl. lia.
  - exists hs. split; [exact Hrun|]. rewrite !Hlook. split; reflexivity.
Defined.

(** ** Body, forward and response *)

Section Exchange.

Variable format_value : json -> str.
Variable upstream_of : ForwardCall -> upstream.


(** C9.  For a request whose [Content-Length] value is not an integer:
    the conversion raises [ValueError], which the [except Exception]
    clause takes; the handler returns with the connection closed, nothing
    written and nothing forwarded. *)
Theorem invalid_content_length_closes fuel c m p v hs c2 val :
  head_decoded fuel c m p v hs c2 ->
  hs !! lit "Content-Length" = Some val ->
  py_int val = None ->
  read_body hs c2 = (c2, Raise (Exn ValueError []))
  /\ is_TimeoutError (Exn ValueError []) = false
  /\ is_Exception (Exn ValueError []) = true
  /\ handle_proxy_request format_value upstream_of fuel c = (close c2, Return tt)
  /\ closed (writer (close c2)) = true
  /\ written (writer (close c2)) = written (writer c)
  /\ forwarded (close c2) = forwarded c.
Proof.
  intros Hh Hcl Hint.
  pose proof (read_body_invalid hs c2 val Hcl Hint) as Hb.
  repeat (split; [done|]).
  destruct (body_failure_closes format_value upstream_of _ _ _ _ _ _ _ _ _ Hh Hb eq_refl)
    as (H0 & H1 & H2 & H3); [apply same_but_pending_refl|done].
Qed.


(** C10.  For every response the handler writes: the [Content-Length]
    header carries the number of characters of the text, the payload is
    the text in UTF-8 (nothing when it cannot be encoded), and the number
    announced is the number of payload bytes written exactly when every
    character of the text is ASCII. *)
Theorem content_length_counts_characters
    fuel c m p v hs c2 c3 body st status text :
  head_decoded fuel c m p v hs c2 ->
  read_body hs c2 = (c3, Return body) ->
  forward_request (upstream_of (the_call format_value m p hs body c2))
    (stats (self c3)) = (st, Return (status, text)) ->
  let out := handle_proxy_request format_value upstream_of fuel c in
  exists line head payload,
    latin1_encode (response_line v status) = Some line
    /\ latin1_encode
         (lit "Content-Length: " ++ str_of_Z (Z.of_nat (length text)) ++ [CR; LF]
          ++ lit "Content-Type: application/json" ++ [CR; LF; CR; LF])
       = Some head
    /\ payload = match utf8_encode text with Some b => b | None => [] end
    /\ written (writer (fst out)) = written (writer c) ++ line ++ head ++ payload
    /\ (Z.of_nat (length text) = Z.of_nat (length payload)
        <-> forallb is_ascii text = true).
Proof.
  intros Hh Hb Hfw out. subst out.
  destruct (handler_responds format_value upstream_of fuel c m p v hs c2 c3 body
              st status text Hh Hb Hfw) as (line & head & Hl & Hd & ->).
  exists line, head, (match utf8_encode text with Some b => b | None => [] end).
  repeat (split; [done|]). split.
  { destruct (head_decoded_frame _ _ _ _ _ _ _ Hh) as (_ & Hw & _).
    destruct (read_body_frame _ _ _ _ Hb) as (_ & Hw' & _).
    cbn. by rewrite Hw', Hw. }
  destruct (utf8_encode text) as [payload|] eqn:He.
  - destruct (utf8_encode_length _ _ He) as [_ H]. rewrite <- H. lia.
  - destruct (utf8_encode_None _ He) as [-> Hne]. destruct text; [done|]. simpl. split; [lia|done].
Qed.

End Exchange.



Lemma invalid_content_length_closes_witness :
  let c := Samples.accept (Samples.post_with_body "5x" "hello") Stalls in
  let out := handle_proxy_request Samples.format_text Samples.answers 4 c in
  snd out = Return tt
  /\ closed (writer (fst out)) = true
  /\ written (writer (fst out)) = []
  /\ forwarded (fst out) = [].
Proof.
  intros c out.
  assert (Hh : head_decoded 4 c (lit "POST") (lit "/data") (lit "HTTP/1.1")
                 {[ lit "Content-Length" := lit "5x" ]}
                 (Samples.accept (Samples.ascii_bytes "hello") Stalls)).
  { head_of (Samples.ascii_bytes "POST /data HTTP/1.1" ++ Samples.crlf)
      (Samples.accept (Samples.ascii_bytes "Content-Length: 5x" ++ Samples.crlf
                       ++ Samples.crlf ++ Samples.ascii_bytes "hello") Stalls). }
  destruct (invalid_content_length_closes Samples.format_text Samples.answers 4 c
              _ _ _ _ _ (lit "5x") Hh) as (_ & _ & _ & Hout & Hc & Hw & Hf).
  - apply lookup_singleton_eq.
  - reflexivity.
  - fold out in Hout. rewrite Hout. cbn [fst snd]. rewrite Hc, Hw, Hf.
    repeat split; reflexivity.
Defined.


Lemma content_length_counts_characters_witness :
  let c := Samples.accept Samples.get_anything Closes in
  let out := handle_proxy_request Samples.format_text Samples.answers_accented 4 c in
  exists line,
    written (writer (fst out))
    = line ++ Samples.ascii_bytes "Content-Length: 4" ++ Samples.crlf
      ++ Samples.ascii_bytes "Content-Type: application/json" ++ Samples.crlf
      ++ Samples.crlf ++ Samples.ascii_bytes "caf" ++ [xc3; xa9]
    /\ forallb is_ascii (lit "caf" ++ [233]) = false.
Proof.
  intros c out.
  assert (Hh : head_decoded 4 c (lit "GET") (lit "/anything") (lit "HTTP/1.1")
                 {[ lit "Host" := lit "x" ]} (Samples.accept [] Closes)).
  { head_of (Samples.ascii_bytes "GET /anything HTTP/1.1" ++ Samples.crlf)
      (Samples.accept (Samples.ascii_bytes "Host: x" ++ Samples.crlf
                       ++ Samples.crlf) Closes). }
  destruct (content_length_counts_characters Samples.format_text
              Samples.answers_accented 4 c _ _ _ _ _ (Samples.accept [] Closes) None
              (fst (forward_request (Responded 200 ∅ (lit "caf" ++ [233]))
                      (fresh_stats (lit "2024-01-01T00:00:00"))))
              200%Z (lit "caf" ++ [233]) Hh)
    as (line & head & payload & Hl & Hd & Hp & Hw & Hiff).
  - reflexivity.
  - reflexivity.
  - exists line. fold out in Hw. rewrite Hw. split.
    + injection Hd as <-. rewrite Hp. reflexivity.
    + reflexivity.
Defined.

(** ** The counters *)

Lemma forward_request_total up st :
  total_requests (fst (forward_request up st)) = (total_requests st + 1)%Z.
Proof. destruct up as [s h t|e]; cbn; [done|]. by destruct (is_Exception e). Qed.

Lemma forward_request_active up st :
  active_connections (fst (forward_request up st)) = active_connections st.
Proof.
  destruct up as [s h t|e]; cbn; [lia|]. destruct (is_Exception e); cbn; lia.
Qed.

(** A call that returns has counted one success or one failure, never
    both. *)
Lemma forward_request_settles up st v :
  snd (forward_request up st) = Return v ->
  let st' := fst (forward_request up st) in
  (successful_requests st' = (successful_requests st + 1)%Z
   /\ failed_requests st' = failed_requests st)
  \/ (successful_requests st' = successful_requests st
      /\ failed_requests st' = (failed_requests st + 1)%Z).
Proof.
  destruct up as [s h t|e]; cbn; [by left|].
  destruct (is_Exception e); cbn; [by right|done].
Qed.

(** The steps of the loop, run back to back, are the call. *)
Lemma steps_are_forward_request s up :
  let call :=
    match up with
    | Responded _ _ _ => [Loop.Start; Loop.Respond; Loop.Finish]
    | Failed e =>
        if is_Exception e then [Loop.Start; Loop.Fail]
        else [Loop.Start; Loop.CancelExchange]
    end in
  Loop.run call s
  = Some {| Loop.counters := fst (forward_request up (Loop.counters s));
            Loop.exchanging := Loop.exchanging s;
            Loop.leaving := Loop.leaving s |}.
Proof.
  destruct up as [st h t|e]; [reflexivity|]. cbn.
  destruct (is_Exception e); reflexivity.
Qed.

Lemma calls_balance_step ev s s' :
  negb (Loop.is_reset ev) && negb (Loop.is_cancel ev) = true ->
  Loop.step ev s = Some s' ->
  (total_requests (Loop.counters s)
   = successful_requests (Loop.counters s) + failed_requests (Loop.counters s)
     + Z.of_nat (Loop.exchanging s))%Z ->
  (total_requests (Loop.counters s')
   = successful_requests (Loop.counters s') + failed_requests (Loop.counters s')
     + Z.of_nat (Loop.exchanging s'))%Z.
Proof.
  destruct s as [st ex lv]. destruct ev; cbn; try done;
    try (destruct ex; [done|]); try (destruct lv; [done|]);
    intros _ [= <-]; cbn; lia.
Qed.

Lemma calls_balance evs : forall s s',
  Loop.calls_only evs = true ->
  Loop.run evs s = Some s' ->
  (total_requests (Loop.counters s)
   = successful_requests (Loop.counters s) + failed_requests (Loop.counters s)
     + Z.of_nat (Loop.exchanging s))%Z ->
  (total_requests (Loop.counters s')
   = successful_requests (Loop.counters s') + failed_requests (Loop.counters s')
     + Z.of_nat (Loop.exchanging s'))%Z.
Proof.
  induction evs as [|ev evs IH]; intros s s'; cbn.
  - by intros _ [= <-].
  - intros [Hev Hevs]%andb_true_iff. destruct (Loop.step ev s) as [s1|] eqn:Hs; [|done].
    intros Hrun Hinv. eapply IH; [done..|]. by eapply calls_balance_step.
Qed.

Lemma active_is_in_flight evs : forall s s',
  Loop.resets_when_idle evs s = true ->
  Loop.run evs s = Some s' ->
  active_connections (Loop.counters s) = Z.of_nat (Loop.in_flight s) ->
  active_connections (Loop.counters s') = Z.of_nat (Loop.in_flight s').
Proof.
  induction evs as [|ev evs IH]; intros s s'; cbn.
  - by intros _ [= <-].
  - intros [Hev Hevs]%andb_true_iff. destruct (Loop.step ev s) as [s1|] eqn:Hs; [|done].
    intros Hrun Hinv. eapply IH; [done..|].
    clear IH Hrun Hevs. destruct s as [st ex lv]. unfold Loop.in_flight in *.
    destruct ev; cbn in *;
      try (destruct ex; [done|]); try (destruct lv; [done|]);
      injection Hs as <-; cbn; try lia.
    apply Nat.eqb_eq in Hev. lia.
Qed.

(** C2.  Every call of [forward_request] adds one to [total_requests],
    and does so (with the increment of [active_connections]) in the step
    that precedes the upstream exchange; it leaves [active_connections]
    as it found it.  When the exchange answers, the call returns the
    answer and has added one to [successful_requests] and nothing to
    [failed_requests]; when the exchange fails with an [Exception], the
    call returns the 502 answer and has added one to [failed_requests]
    and nothing to [successful_requests]; a cancellation is raised again
    and adds to neither.  The steps of the loop that make up a call
    change the counters as the call does.  Hence, for any interleaving
    of calls that all complete, with no reset, from the start of the
    proxy: once no call is in flight,
    [total_requests = successful_requests + failed_requests]. *)
Theorem forward_counters_balance up st evs now s :
  (total_requests (fst (forward_request up st)) = (total_requests st + 1)%Z
   /\ active_connections (fst (forward_request up st)) = active_connections st
   /\ (forall s0,
         exists s1, Loop.step Loop.Start s0 = Some s1
           /\ total_requests (Loop.counters s1)
              = (total_requests (Loop.counters s0) + 1)%Z
           /\ active_connections (Loop.counters s1)
              = (active_connections (Loop.counters s0) + 1)%Z
           /\ Loop.exchanging s1 = S (Loop.exchanging s0))
   /\ (forall v, snd (forward_request up st) = Return v ->
         (successful_requests (fst (forward_request up st))
          = (successful_requests st + 1)%Z
          /\ failed_requests (fst (forward_request up st)) = failed_requests st)
         \/ (successful_requests (fst (forward_request up st))
             = successful_requests st
             /\ failed_requests (fst (forward_request up st))
                = (failed_requests st + 1)%Z))
   /\ match up with
      | Responded status _ text =>
          snd (forward_request up st) = Return (status, text)
          /\ successful_requests (fst (forward_request up st))
             = (successful_requests st + 1)%Z
          /\ failed_requests (fst (forward_request up st)) = failed_requests st
      | Failed e =>
          if is_Exception e then
            snd (forward_request up st) = Return (bad_gateway e)
            /\ fst (bad_gateway e) = 502%Z
            /\ successful_requests (fst (forward_request up st))
               = successful_requests st
            /\ failed_requests (fst (forward_request up st))
               = (failed_requests st + 1)%Z
          else
            snd (forward_request up st) = Raise e
            /\ successful_requests (fst (forward_request up st))
               = successful_requests st
            /\ failed_requests (fst (forward_request up st)) = failed_requests st
      end
   /\ (forall s0,
         Loop.run
           match up with
           | Responded _ _ _ => [Loop.Start; Loop.Respond; Loop.Finish]
           | Failed e =>
               if is_Exception e then [Loop.Start; Loop.Fail]
               else [Loop.Start; Loop.CancelExchange]
           end s0
         = Some {| Loop.counters := fst (forward_request up (Loop.counters s0));
                   Loop.exchanging := Loop.exchanging s0;
                   Loop.leaving := Loop.leaving s0 |}))
  /\ (Loop.calls_only evs = true ->
      Loop.run evs (Loop.initial now) = Some s ->
      Loop.in_flight s = 0%nat ->
      total_requests (Loop.counters s)
      = (successful_requests (Loop.counters s)
         + failed_requests (Loop.counters s))%Z).
Proof.
  split; [split; [|split; [|split; [|split; [|split]]]]|].
  - apply forward_request_total.
  - apply forward_request_active.
  - intros s0. eexists. split; [reflexivity|]. cbn. done.
  - intros v Hv. by apply (forward_request_settles up st v).
  - destruct up as [status h text|e]; [done|].
    unfold forward_request. destruct (is_Exception e); done.
  - intros s0. apply steps_are_forward_request.
  - intros Hevs Hrun Hidle.
    pose proof (calls_balance evs _ _ Hevs Hrun eq_refl) as H.
    unfold Loop.in_flight in Hidle. rewrite H. lia.
Qed.

Lemma forward_counters_balance_witness :
  let evs := [Loop.Start; Loop.Start; Loop.GetStats 3; Loop.Respond;
              Loop.Start; Loop.Fail; Loop.Finish; Loop.Fail] in
  exists s, Loop.run evs (Loop.initial []) = Some s
    /\ total_requests (Loop.counters s) = 3%Z
    /\ successful_requests (Loop.counters s) = 1%Z
    /\ failed_requests (Loop.counters s) = 2%Z
    /\ total_requests (Loop.counters s)
       = (successful_requests (Loop.counters s)
          + failed_requests (Loop.counters s))%Z.
Proof.
  intros evs. eexists. split; [reflexivity|]. split; [reflexivity|].
  split; [reflexivity|]. split; [reflexivity|].
  eapply (forward_counters_balance (Failed (Exn ClientError [])) (fresh_stats []) evs []).
  - reflexivity.
  - reflexivity.
  - reflexivity.
Defined.

(** C3 as stated fails: a reset while a call is in flight puts the
    counter back to zero, and the call's [finally] clause then takes it
    below zero. *)
Lemma reset_in_flight_goes_negative :
  Loop.run [Loop.Start; Loop.ResetStats (lit "t1"); Loop.Fail]
    (Loop.initial (lit "t0"))
  = Some {| Loop.counters :=
              {| total_requests := 0;
                 successful_requests := 0;
                 failed_requests := 1;
                 start_time := lit "t1";
                 uptime_seconds := 0;
                 active_connections := -1 |};
            Loop.exchanging := 0;
            Loop.leaving := 0 |}
  /\ ~ (forall evs now s,
          Loop.run evs (Loop.initial now) = Some s ->
          (0 <= active_connections (Loop.counters s))%Z).
Proof.
  split; [reflexivity|]. intros H.
  specialize (H [Loop.Start; Loop.ResetStats (lit "t1"); Loop.Fail] (lit "t0") _ eq_refl).
  cbn in H. lia.
Qed.

(** C3, amended.  In every state reached from the start of the proxy by
    an interleaving of handlers and control-API operations in which
    [reset_stats] only runs while no call is in flight,
    [active_connections] is the number of calls in flight; it is never
    negative. *)
Theorem active_connections_nonnegative evs now s :
  Loop.resets_when_idle evs (Loop.initial now) = true ->
  Loop.run evs (Loop.initial now) = Some s ->
  active_connections (Loop.counters s) = Z.of_nat (Loop.in_flight s)
  /\ (0 <= active_connections (Loop.counters s))%Z.
Proof.
  intros Hq Hrun.
  pose proof (active_is_in_flight evs _ _ Hq Hrun eq_refl) as H.
  split; [exact H|]. rewrite H. lia.
Qed.

Lemma active_connections_nonnegative_witness :
  let evs := [Loop.Start; Loop.Respond; Loop.Start; Loop.Finish;
              Loop.CancelExchange; Loop.ResetStats (lit "t1"); Loop.Start] in
  exists s, Loop.run evs (Loop.initial (lit "t0")) = Some s
    /\ active_connections (Loop.counters s) = 1%Z
    /\ (0 <= active_connections (Loop.counters s))%Z.
Proof.
  intros evs. eexists. split; [reflexivity|]. split; [reflexivity|].
  apply (active_connections_nonnegative evs (lit "t0")); reflexivity.
Defined.

(** ** The JSON text of a dictionary of texts *)

Lemma hex_digit_is_hex d : d < 16 -> JsonText.is_hex (Dumps.hex_digit d) = true.
Proof.
  intros Hd. unfold Dumps.hex_digit, JsonText.is_hex, is_digit.
  destruct (N.ltb_spec d 10).
  - replace (48 <=? 48 + d) with true by (symmetry; apply N.leb_le; lia).
    replace (48 + d <=? 57) with true by (symmetry; apply N.leb_le; lia). done.
  - replace (97 <=? 87 + d) with true by (symmetry; apply N.leb_le; lia).
    replace (87 + d <=? 102) with true by (symmetry; apply N.leb_le; lia).
    cbn. by rewrite orb_true_r.
Qed.

Lemma scan_string_simple e tail :
  JsonText.is_simple_escape e = true ->
  JsonText.scan_string (BACKSLASH :: e :: tail)
  = JsonText.with_prefix [BACKSLASH; e] (JsonText.scan_string tail).
Proof. intros H. cbn [JsonText.scan_string]. by rewrite H. Qed.

Lemma scan_string_u n tail :
  JsonText.scan_string (Dumps.u_escape n ++ tail)
  = JsonText.with_prefix (Dumps.u_escape n) (JsonText.scan_string tail).
Proof.
  unfold Dumps.u_escape, Dumps.hex4. cbn [app JsonText.scan_string].
  change (BACKSLASH =? DQUOTE) with false. change (BACKSLASH =? BACKSLASH) with true.
  change (JsonText.is_simple_escape 117) with false. change (117 =? 117) with true.
  cbv iota.
  rewrite !hex_digit_is_hex by (apply N.mod_lt; lia). done.
Qed.

Lemma scan_string_plain c tail :
  (32 <=? c) && (c <=? 126) = true -> (c =? BACKSLASH) = false ->
  (c =? DQUOTE) = false ->
  JsonText.scan_string (c :: tail)
  = JsonText.with_prefix [c] (JsonText.scan_string tail).
Proof.
  intros [H1 _]%andb_true_iff H2 H3. cbn [JsonText.scan_string]. rewrite H2, H3.
  apply N.leb_le in H1. by destruct (N.ltb_spec c 32); [lia|].
Qed.

(** The scanner accepts the escape of any character. *)
Lemma scan_string_escape_char c tail :
  JsonText.scan_string (Dumps.escape_char c ++ tail)
  = JsonText.with_prefix (Dumps.escape_char c) (JsonText.scan_string tail).
Proof.
  unfold Dumps.escape_char.
  destruct (c =? BACKSLASH) eqn:E1; [by apply scan_string_simple|].
  destruct (c =? DQUOTE) eqn:E2; [by apply scan_string_simple|].
  destruct (c =? 8); [by apply scan_string_simple|].
  destruct (c =? 12); [by apply scan_string_simple|].
  destruct (c =? 10); [by apply scan_string_simple|].
  destruct (c =? 13); [by apply scan_string_simple|].
  destruct (c =? 9); [by apply scan_string_simple|].
  destruct ((32 <=? c) && (c <=? 126)) eqn:E3; [by apply scan_string_plain|].
  destruct (c <? 65536); [apply scan_string_u|].
  cbv zeta. rewrite <- app_assoc, !scan_string_u.
  destruct (JsonText.scan_string tail) as [[b r]|]; [|done]. cbn [JsonText.with_prefix].
  by rewrite <- app_assoc.
Qed.

(** From just after the opening quote of [json.dumps(s)], the scanner
    reads the escaped text up to the closing quote. *)
Lemma scan_string_dumps s tail :
  JsonText.scan_string (flat_map Dumps.escape_char s ++ DQUOTE :: tail)
  = Some (flat_map Dumps.escape_char s, tail).
Proof.
  induction s as [|c s IH]; [reflexivity|].
  cbn [flat_map]. rewrite <- app_assoc, scan_string_escape_char, IH. done.
Qed.

Lemma scan_members_dumps items : forall fuel tail,
  items <> [] -> (length items <= fuel)%nat -> JsonText.skip_ws tail = [] ->
  JsonText.scan_members fuel (Dumps.dumps_items items ++ 125 :: tail)
  = Some (map (fun kv => (flat_map Dumps.escape_char (fst kv),
                          flat_map Dumps.escape_char (snd kv))) items)
  /\ JsonText.scan_members fuel (SP :: Dumps.dumps_items items ++ 125 :: tail)
     = Some (map (fun kv => (flat_map Dumps.escape_char (fst kv),
                             flat_map Dumps.escape_char (snd kv))) items).
Proof.
  induction items as [|[k v] items IH]; intros fuel tail Hne Hfuel Htail; [done|].
  destruct fuel as [|fuel]; [simpl in Hfuel; lia|].
  assert (Hstep : forall rest,
    JsonText.scan_members (S fuel)
      (Dumps.dumps_str k ++ lit ": " ++ Dumps.dumps_str v ++ rest)
    = match JsonText.skip_ws rest with
      | 44 :: s6 =>
          option_map (cons (flat_map Dumps.escape_char k, flat_map Dumps.escape_char v))
            (JsonText.scan_members fuel s6)
      | 125 :: s6 =>
          match JsonText.skip_ws s6 with
          | [] => Some [(flat_map Dumps.escape_char k, flat_map Dumps.escape_char v)]
          | _ => None
          end
      | _ => None
      end).
  { intros rest. unfold Dumps.dumps_str. cbn [JsonText.scan_members].
    change (JsonText.skip_ws ((DQUOTE :: flat_map Dumps.escape_char k ++ [DQUOTE]) ++ ?x))
      with (DQUOTE :: (flat_map Dumps.escape_char k ++ [DQUOTE]) ++ x).
    rewrite <- !app_assoc. cbn [app]. rewrite scan_string_dumps.
    change (JsonText.skip_ws (lit ": " ++ ?x)) with (58 :: SP :: x).
    cbv beta iota.
    change (JsonText.skip_ws (SP :: DQUOTE :: ?x)) with (DQUOTE :: x).
    cbv beta iota. rewrite <- !app_assoc. cbn [app]. by rewrite scan_string_dumps. }
  assert (Hboth : forall t, JsonText.scan_members (S fuel) (SP :: Dumps.dumps_str k ++ t)
                            = JsonText.scan_members (S fuel) (Dumps.dumps_str k ++ t)).
  { intros t. reflexivity. }
  destruct items as [|kv items].
  - cbn [Dumps.dumps_items map]. rewrite <- !app_assoc, Hboth, Hstep.
    cbn [JsonText.skip_ws lstrip_by].
    change (JsonText.is_ws 125) with false. cbv iota.
    fold (JsonText.skip_ws tail). by rewrite Htail.
  - destruct (IH fuel tail) as [_ IH2]; [done|simpl in Hfuel |- *; lia|done|].
    assert (Heq : Dumps.dumps_items ((k, v) :: kv :: items)
                  = Dumps.dumps_str k ++ lit ": " ++ Dumps.dumps_str v ++ lit ", "
                    ++ Dumps.dumps_items (kv :: items)) by (by destruct kv).
    rewrite Heq, <- !app_assoc, Hboth, Hstep.
    change (JsonText.skip_ws (lit ", " ++ ?x)) with (44 :: SP :: x).
    cbv iota. rewrite IH2. done.
Qed.

Lemma dumps_items_length items : (length items <= length (Dumps.dumps_items items))%nat.
Proof.
  induction items as [|[k v] items IH]; [done|].
  destruct items as [|kv items].
  - cbn [Dumps.dumps_items]. unfold Dumps.dumps_str. rewrite !length_app. simpl. lia.
  - assert (Heq : Dumps.dumps_items ((k, v) :: kv :: items)
                  = Dumps.dumps_str k ++ lit ": " ++ Dumps.dumps_str v ++ lit ", "
                    ++ Dumps.dumps_items (kv :: items)) by (by destruct kv).
    rewrite Heq. unfold Dumps.dumps_str. rewrite !length_app.
    cbn [length] in *. lia.
Qed.

Lemma scan_object_open t :
  JsonText.scan_object (123 :: DQUOTE :: t)
  = JsonText.scan_members (S (S (length t))) (DQUOTE :: t).
Proof. reflexivity. Qed.

(** Scanning the text [json.dumps] gives for a dictionary of texts
    yields its members, in order, each as its escaped text. *)
Lemma scan_object_dumps items :
  items <> [] ->
  JsonText.scan_object (Dumps.dumps items)
  = Some (map (fun kv => (flat_map Dumps.escape_char (fst kv),
                          flat_map Dumps.escape_char (snd kv))) items).
Proof.
  intros Hne.
  change (Dumps.dumps items) with (123 :: (Dumps.dumps_items items ++ [125])).
  assert (Hhd : exists t, Dumps.dumps_items items ++ [125] = DQUOTE :: t).
  { destruct items as [|[k v] [|[k' v'] items]]; [done|by eexists..]. }
  destruct Hhd as [t Ht]. rewrite Ht, scan_object_open, <- Ht.
  apply scan_members_dumps; [done| |done].
  pose proof (dumps_items_length items) as Hlen.
  apply (f_equal length) in Ht. rewrite length_app in Ht. cbn [length] in Ht. lia.
Qed.

(** ** The forward operation *)

(** C1.  A call of [forward_request] whose upstream exchange answers, or
    fails with an exception of class [Exception] (connection error,
    timeout, transport error), returns: the status and the text of the
    answer, or status 502 with the JSON text of an object whose members
    are [error] and [details]. *)
Theorem forward_request_never_raises up st :
  (forall e, up = Failed e -> is_Exception e = true) ->
  exists status text,
    snd (forward_request up st) = Return (status, text)
    /\ match up with
       | Responded s _ t => status = s /\ text = t
       | Failed e =>
           status = 502%Z
           /\ text = Dumps.dumps [(lit "error", lit "Bad Gateway");
                                  (lit "details", exn_msg e)]
           /\ JsonText.object_keys text = Some [lit "error"; lit "details"]
       end.
Proof.
  intros Hexn. destruct up as [s h t|e].
  - by exists s, t.
  - exists 502%Z, (Dumps.dumps [(lit "error", lit "Bad Gateway");
                                 (lit "details", exn_msg e)]).
    split; [unfold forward_request; by rewrite (Hexn e eq_refl)|].
    repeat split. unfold JsonText.object_keys.
    by rewrite scan_object_dumps.
Qed.

Lemma forward_request_never_raises_witness :
  exists text,
    snd (forward_request (Samples.unreachable (the_call Samples.format_text
           (lit "GET") (lit "/anything") ∅ None (Samples.accept [] Closes)))
           (fresh_stats [])) = Return (502%Z, text)
    /\ JsonText.object_keys text = Some [lit "error"; lit "details"].
Proof.
  destruct (forward_request_never_raises
              (Samples.unreachable (the_call Samples.format_text
                 (lit "GET") (lit "/anything") ∅ None (Samples.accept [] Closes)))
              (fresh_stats []))
    as (status & text & Hr & Hs & Ht & Hk).
  - intros e [= <-]. reflexivity.
  - exists text. split; [|exact Hk]. rewrite Hr. by rewrite Hs.
Defined.

(** With no upstream to reach, the client of the proxy gets a 502
    response, not a dropped connection. *)
Example unreachable_upstream_answers_502 :
  let out := handle_proxy_request Samples.format_text Samples.unreachable 4
               (Samples.accept Samples.get_anything Stalls) in
  snd out = Return tt
  /\ closed (writer (fst out)) = true
  /\ written (writer (fst out))
     = Samples.ascii_bytes "HTTP/1.1 502 OK" ++ Samples.crlf
       ++ Samples.ascii_bytes "Content-Length: 76" ++ Samples.crlf
       ++ Samples.ascii_bytes "Content-Type: application/json" ++ Samples.crlf
       ++ Samples.crlf
       ++ Samples.ascii_bytes "{" ++ Samples.quoted "error"
       ++ Samples.ascii_bytes ": " ++ Samples.quoted "Bad Gateway"
       ++ Samples.ascii_bytes ", " ++ Samples.quoted "details"
       ++ Samples.ascii_bytes ": "
       ++ Samples.quoted "Cannot connect to host localhost:8000"
       ++ Samples.ascii_bytes "}".
Proof. vm_compute. done. Qed.

(** The handler never ends on a header block the client abandons by
    closing: whatever the fuel, the run is out of fuel. *)
Example abandoned_header_block_spins fuel :
  snd (handle_proxy_request Samples.format_text Samples.unreachable fuel
         (Samples.accept (Samples.ascii_bytes "GET / HTTP/1.1" ++ Samples.crlf) Closes))
  = OutOfFuel.
Proof.
  unfold handle_proxy_request.
  rewrite (handle_request_three_parts _ _ fuel _
             (Samples.accept [] Closes)
             (Samples.ascii_bytes "GET / HTTP/1.1" ++ Samples.crlf)
             (lit "GET") (lit "/") (lit "HTTP/1.1")); [|done..].
  unfold bind.
  pose proof (read_headers_spins fuel ∅ (Samples.accept [] Closes) eq_refl eq_refl) as H.
  destruct (read_headers fuel ∅ (Samples.accept [] Closes)) as [c' r].
  cbn in H. by subst r.
Qed.

(** ** POST /config *)

Lemma dict_get_existsb key d :
  existsb (fun kv : str * json => bool_decide (fst kv = key)) d
  = match dict_get key d with Some _ => true | None => false end.
Proof.
  induction d as [|[k v] d IH]; [done|]. cbn.
  by destruct (bool_decide (k = key)).
Qed.

Section ControlAPIProperties.

Variable int_of_text : str -> option Z.
Variable message : exn_class -> json -> str.

(** The conversion does not touch the proxy object. *)
Lemma py_int_of_pure v (self : ProxyServer) :
  fst (py_int_of int_of_text message v self) = self.
Proof.
  destruct v as [|b|z|f|s|l|d]; try done; cbn.
  - by destruct (int_of_float f).
  - by destruct (int_of_text s).
Qed.


(** What the [try] block of [update_config] does on an object. *)
Lemma update_config_try_dict d self :
  update_config_try int_of_text message (inr (JDict d)) self =
  match dict_get (lit "max_connections") d with
  | Some v =>
      match py_int_of int_of_text message v self with
      | (_, Return n) =>
          let self1 := {| target_url := target_url self;
                          max_connections := n;
                          stats := stats self |} in
          let self2 := match dict_get (lit "target_url") d with
                       | Some u => {| target_url := u;
                                      max_connections := n;
                                      stats := stats self |}
                       | None => self1
                       end in
          (self2, Return (config_updated self2))
      | (_, Raise e) => (self, Raise e)
      | (_, OutOfFuel) => (self, OutOfFuel)
      end
  | None =>
      let self2 := match dict_get (lit "target_url") d with
                   | Some u => {| target_url := u;
                                  max_connections := max_connections self;
                                  stats := stats self |}
                   | None => self
                   end in
      (self2, Return (config_updated self2))
  end.
Proof.
  unfold update_config_try, bind, py_in, py_getitem, ret, set_max_connections,
    set_target_url.
  rewrite !dict_get_existsb.
  destruct (dict_get (lit "max_connections") d) as [v|].
  - pose proof (py_int_of_pure v self) as Hp.
    destruct (py_int_of int_of_text message v self) as [s' [n|e|]];
      cbn [fst] in Hp; subst s'; try done.
    by destruct (dict_get (lit "target_url") d).
  - by destruct (dict_get (lit "target_url") d).
Qed.



End ControlAPIProperties.



(** * Further properties *)

(** ** Every run of the handler *)

Lemma send_response_shape v status text c c' r :
  send_response v status text c = (c', r) ->
  self c' = self c /\ reader c' = reader c /\ forwarded c' = forwarded c
  /\ closed (writer c') = closed (writer c)
  /\ (exists data, written (writer c') = written (writer c) ++ data)
  /\ (r = Return tt \/ exists e, r = Raise e /\ is_Exception e = true).
Proof.
  unfold send_response, bind, encoded, write, ret, raise_cls, raise.
  destruct (latin1_encode (response_line v status)) as [line|].
  - destruct (latin1_encode (response_headers text)) as [head|].
    + destruct (utf8_encode text) as [payload|]; intros [= <- <-]; cbn;
        repeat split; try (by left); try (by right; eexists);
        rewrite <- ?app_assoc; by eexists.
    + intros [= <- <-]; cbn. repeat split; [by eexists|by right; eexists].
  - intros [= <- <-]. repeat split; [exists []; by rewrite app_nil_r|by right; eexists].
Qed.

Lemma forward_request_outcome up st :
  (exists status text, snd (forward_request up st) = Return (status, text))
  \/ (exists e, up = Failed e /\ is_Exception e = false
                /\ snd (forward_request up st) = Raise e).
Proof.
  destruct up as [s h t|e]; [left; by eexists _, _|].
  destruct (is_Exception e) eqn:He.
  - left. unfold forward_request. rewrite He. by eexists _, _.
  - right. exists e. unfold forward_request. by rewrite He.
Qed.

Lemma read_body_raises hs c c' e :
  read_body hs c = (c', Raise e) -> is_Exception e = true.
Proof.
  unfold read_body, bind, int_of, wait_for_readexactly, ret, raise_cls, raise.
  repeat case_match; intros; by simplify_eq.
Qed.

Lemma read_body_fuel hs c c' : read_body hs c <> (c', OutOfFuel).
Proof.
  unfold read_body, bind, int_of, wait_for_readexactly, ret, raise_cls, raise.
  repeat case_match; intros; by simplify_eq.
Qed.

Lemma wait_for_readline_raises c c' e :
  wait_for_readline c = (c', Raise e) -> is_Exception e = true.
Proof.
  unfold wait_for_readline. repeat case_match; intros; by simplify_eq.
Qed.

Lemma wait_for_readline_fuel c c' : wait_for_readline c <> (c', OutOfFuel).
Proof.
  unfold wait_for_readline. repeat case_match; intros; by simplify_eq.
Qed.

Lemma read_headers_raises fuel : forall h c c' e,
  read_headers fuel h c = (c', Raise e) -> is_Exception e = true.
Proof.
  induction fuel as [|fuel IH]; intros h c c' e; [done|].
  rewrite read_headers_S.
  destruct (wait_for_readline c) as [c1 [raw|e1|]] eqn:Hr.
  - destruct (is_blank_line raw); [done|].
    destruct (header_of_line (decode_line raw)) as [[k v]|]; apply IH.
  - intros [= <- <-]. eapply wait_for_readline_raises, Hr.
  - done.
Qed.

Section EveryRun.

Variable format_value : json -> str.
Variable upstream_of : ForwardCall -> upstream.

Lemma after_headers_ran m p v hs c c' r :
  after_headers format_value upstream_of m p v hs c = (c', r) -> ran upstream_of c c' r.
Proof.
  unfold after_headers, bind.
  destruct (read_body hs c) as [c3 [body|e|]] eqn:Hb.
  - destruct (read_body_frame _ _ _ _ Hb) as (Hs & Hw & Hf & He & Hl).
    unfold call_forward.
    set (call := {| fc_method := m |}).
    pose proof (forward_request_outcome (upstream_of call) (stats (self c))) as Hout.
    rewrite Hs.
    destruct (forward_request (upstream_of call) (stats (self c))) as [st rf] eqn:Hfw.
    cbn [fst snd] in *.
    destruct Hout as [(status & text & ->)|(e & Hup & He' & ->)].
    + cbn [fst snd]. intros Hsend.
      destruct (send_response_shape _ _ _ _ _ _ Hsend)
        as (Hs1 & Hr1 & Hf1 & Hc1 & [data Hd1] & Hres).
      cbn in Hs1, Hr1, Hf1, Hc1, Hd1.
      apply (ran_with_call upstream_of c c' r call data); rewrite ?Hfw; cbn [fst snd].
      * congruence.
      * congruence.
      * congruence.
      * congruence.
      * by rewrite Hr1, He.
      * by rewrite Hr1, Hl.
      * left. by eexists _, _.
    + intros [= <- <-].
      apply (ran_with_call upstream_of c _ _ call []); rewrite ?Hfw; cbn.
      * congruence.
      * congruence.
      * by rewrite app_nil_r, Hw.
      * congruence.
      * congruence.
      * congruence.
      * right. by exists e.
  - intros [= <- <-]. apply ran_without_call; [eapply read_body_frame, Hb|].
    right; right. exists e. split; [done|]. eapply read_body_raises, Hb.
  - by destruct (read_body_fuel _ _ _ Hb).
Qed.

Lemma ran_after_reading c c1 c' r :
  same_but_pending c c1 -> ran upstream_of c1 c' r -> ran upstream_of c c' r.
Proof.
  intros (Hs & Hw & Hf & He & Hl) [Hsame Hr|call data H1 H2 H3 H4 H5 H6 H7].
  - apply ran_without_call; [|done].
    eapply same_but_pending_trans; [|exact Hsame]. by repeat split.
  - rewrite Hs in H1, H7.
    apply (ran_with_call upstream_of c c' r call data); congruence.
Qed.

Lemma handle_request_ran fuel c c' r :
  handle_request format_value upstream_of fuel c = (c', r) -> ran upstream_of c c' r.
Proof.
  unfold handle_request, bind.
  destruct (wait_for_readline c) as [c1 [raw|e|]] eqn:Hr.
  - pose proof (wait_for_readline_frame _ _ _ Hr) as Hf1.
    destruct raw as [|x raw]; [intros [= <- <-]; apply ran_without_call; tauto|].
    destruct (length _ <? 3)%nat; [intros [= <- <-]; apply ran_without_call; tauto|].
    destruct (split SP 2 _) as [|m [|p [|v [|? ?]]]];
      try (intros [= <- <-]; apply ran_without_call; [done|];
           right; right; by eexists).
    destruct (read_headers fuel ∅ c1) as [c2 [hs|e|]] eqn:Hh;
      pose proof (read_headers_frame _ _ _ _ _ Hh) as Hf2.
    + intros Hafter. apply (ran_after_reading c c2).
      * eapply same_but_pending_trans; eassumption.
      * eapply after_headers_ran, Hafter.
    + intros [= <- <-]. apply ran_without_call.
      * eapply same_but_pending_trans; eassumption.
      * right; right. exists e. split; [done|]. eapply read_headers_raises, Hh.
    + intros [= <- <-]. apply ran_without_call; [|tauto].
      eapply same_but_pending_trans; eassumption.
  - intros [= <- <-]. apply ran_without_call;
      [eapply wait_for_readline_frame, Hr|].
    right; right. exists e. split; [done|]. eapply wait_for_readline_raises, Hr.
  - by destruct (wait_for_readline_fuel _ _ Hr).
Qed.

End EveryRun.

Section EveryRunProperties.

Variable format_value : json -> str.
Variable upstream_of : ForwardCall -> upstream.

Lemma handle_proxy_request_cases fuel c :
  exists c' r,
    handle_request format_value upstream_of fuel c = (c', r)
    /\ ran upstream_of c c' r
    /\ handle_proxy_request format_value upstream_of fuel c
       = match r with
         | Return _ => (close c', Return tt)
         | Raise e =>
             if is_Exception e then (close c', Return tt)
             else (close c', Raise e)
         | OutOfFuel => (c', OutOfFuel)
         end.
Proof.
  destruct (handle_request format_value upstream_of fuel c) as [c' r] eqn:H.
  exists c', r. split; [done|]. split; [eapply handle_request_ran, H|].
  unfold handle_proxy_request. rewrite H. destruct r as [[]|e|]; try done.
  destruct e as [[] msg]; done.
Qed.

(** X1.  On every connection, whatever the client sends and however the
    upstream behaves, the handler makes at most one forward call, and it
    writes nothing unless that call was made and returned a status and a
    text. *)
Theorem one_call_and_no_write_before_it fuel c :
  let out := handle_proxy_request format_value upstream_of fuel c in
  (forwarded (fst out) = forwarded c
   /\ written (writer (fst out)) = written (writer c))
  \/ (exists call data,
        forwarded (fst out) = forwarded c ++ [call]
        /\ written (writer (fst out)) = written (writer c) ++ data
        /\ (data <> [] ->
            exists status text,
              snd (forward_request (upstream_of call) (stats (self c)))
              = Return (status, text))).
Proof.
  intros out. subst out.
  destruct (handle_proxy_request_cases fuel c) as (c' & r & _ & Hran & ->).
  destruct Hran as [(_ & Hw & Hf & _) Hr|call data _ Hf Hw _ _ _ Hres].
  - left. destruct r as [[]|e|]; [| destruct (is_Exception e) |]; cbn;
      by rewrite Hw, Hf.
  - right. exists call, data.
    assert (Hgoal : forwarded c' = forwarded c ++ [call]
                    /\ written (writer c') = written (writer c) ++ data
                    /\ (data <> [] ->
                        exists status text,
                          snd (forward_request (upstream_of call) (stats (self c)))
                          = Return (status, text))).
    { split; [done|]. split; [done|]. intros Hne.
      destruct Hres as [(status & text & H & _)|(e & _ & _ & _ & ->)]; [|done].
      by exists status, text. }
    destruct r as [[]|e|]; [| destruct (is_Exception e) |]; exact Hgoal.
Qed.

(** X3.  The handler leaves the configuration of the proxy alone, and
    moves the counters only through its forward call: [total_requests]
    grows by the number of calls made (none or one),
    [successful_requests] and [failed_requests] together by at most
    that, and [active_connections] is back at its value. *)
Theorem handler_keeps_configuration fuel c :
  let out := handle_proxy_request format_value upstream_of fuel c in
  let calls := (Z.of_nat (length (forwarded (fst out)))
                - Z.of_nat (length (forwarded c)))%Z in
  target_url (self (fst out)) = target_url (self c)
  /\ max_connections (self (fst out)) = max_connections (self c)
  /\ start_time (stats (self (fst out))) = start_time (stats (self c))
  /\ (0 <= calls <= 1)%Z
  /\ total_requests (stats (self (fst out)))
     = (total_requests (stats (self c)) + calls)%Z
  /\ active_connections (stats (self (fst out)))
     = active_connections (stats (self c))
  /\ (successful_requests (stats (self c)) + failed_requests (stats (self c))
      <= successful_requests (stats (self (fst out)))
         + failed_requests (stats (self (fst out)))
      <= successful_requests (stats (self c)) + failed_requests (stats (self c))
         + calls)%Z.
Proof.
  intros out calls. subst out calls.
  destruct (handle_proxy_request_cases fuel c) as (c' & r & _ & Hran & ->).
  set (res := match r with
              | Return _ => (close c', Return tt)
              | Raise e =>
                  if is_Exception e then (close c', Return tt)
                  else (close c', Raise e)
              | OutOfFuel => (c', OutOfFuel)
              end).
  assert (Hfst : self (fst res) = self c' /\ forwarded (fst res) = forwarded c').
  { subst res. destruct r as [[]|e|]; [| destruct (is_Exception e) |]; done. }
  destruct Hfst as [-> ->]. clear res.
  destruct Hran as [(Hs & _ & Hf & _) _|call data Hs Hf _ _ _ _ _].
  - rewrite Hs, Hf. repeat split; lia.
  - rewrite Hs, Hf, length_app. cbn [length set_stats target_url max_connections stats].
    pose proof (forward_request_total (upstream_of call) (stats (self c))) as Ht.
    pose proof (forward_request_active (upstream_of call) (stats (self c))) as Ha.
    destruct (upstream_of call) as [s h t|e]; [|destruct (is_Exception e) eqn:He];
      unfold forward_request in *; rewrite ?He in *; cbn in *; repeat split; lia.
Qed.

End EveryRunProperties.

(** ** Clients that do not finish the head *)

Lemma take_line_shorter b : forall l rest,
  take_line b = Some (l, rest) -> (length rest < length b)%nat.
Proof.
  induction b as [|x b IH]; intros l rest; [done|].
  rewrite take_line_cons. destruct (Byte.eqb x x0a).
  - intros [= <- <-]. simpl. lia.
  - destruct (take_line b) as [[l' rest']|]; [|done].
    intros [= <- <-]. specialize (IH l' rest' eq_refl). simpl. lia.
Qed.

Lemma unfinished_not_blank b : unfinished b = true -> is_blank_line b = false.
Proof.
  unfold unfinished. destruct b as [|x [|y [|z b]]]; [done| | |].
  - rewrite take_line_cons. by destruct x.
  - rewrite !take_line_cons. destruct x; try done; by destruct y.
  - intros _. destruct x; try done; by destruct y.
Qed.

Lemma wait_for_readline_unfinished c :
  unfinished (pending (reader c)) = true ->
  N.of_nat (length (pending (reader c))) <= limit (reader c) ->
  wait_for_readline c
  = match ending (reader c) with
    | Closes => (advance [] c, Return (pending (reader c)))
    | Stalls => (c, Raise (Exn TimeoutError []))
    end.
Proof.
  unfold unfinished, wait_for_readline. intros Hu Hl.
  destruct (take_line (pending (reader c))); [done|].
  by destruct (N.ltb_spec (limit (reader c)) (N.of_nat (length (pending (reader c)))));
    [lia|].
Qed.

(** With a silent client every turn of the header loop takes bytes or
    ends the loop: fuel beyond the number of pending bytes is never
    spent. *)
Lemma read_headers_ends_when_silent fuel : forall h c,
  ending (reader c) = Stalls ->
  (length (pending (reader c)) < fuel)%nat ->
  snd (read_headers fuel h c) <> OutOfFuel.
Proof.
  induction fuel as [|fuel IH]; intros h c He Hlen; [lia|].
  rewrite read_headers_S. unfold wait_for_readline. rewrite He.
  destruct (take_line (pending (reader c))) as [[l rest]|] eqn:Ht.
  - destruct (_ <? _); [done|].
    destruct (is_blank_line l); [done|].
    pose proof (take_line_shorter _ _ _ Ht) as Hs.
    destruct (header_of_line (decode_line l)) as [[k v]|]; apply IH; cbn; try done; lia.
  - by destruct (_ <? _).
Qed.

(** Once the client has closed inside the header block, the loop never
    ends. *)
Lemma read_headers_never_ends lines : forall fuel h c partial,
  Forall (fun l => is_header_line l = true) lines ->
  Forall (fun l => fits (limit (reader c)) l = true) lines ->
  unfinished partial = true ->
  N.of_nat (length partial) <= limit (reader c) ->
  pending (reader c) = concat lines ++ partial ->
  ending (reader c) = Closes ->
  snd (read_headers fuel h c) = OutOfFuel.
Proof.
  induction lines as [|l lines IH]; intros fuel h c partial Hls Hfit Hu Hlim Hp He.
  - destruct fuel as [|fuel]; [done|]. simpl in Hp.
    rewrite read_headers_S, wait_for_readline_unfinished, He, Hp by (by rewrite Hp).
    rewrite (unfinished_not_blank _ Hu).
    destruct (header_of_line (decode_line partial)) as [[k v]|];
      by apply read_headers_spins.
  - destruct fuel as [|fuel]; [done|].
    apply Forall_cons in Hls as [Hl Hls]. apply Forall_cons in Hfit as [Hf1 Hfit].
    apply andb_true_iff in Hl as [Hl1 Hl2]. apply negb_true_iff in Hl2.
    simpl in Hp. rewrite <- app_assoc in Hp.
    rewrite read_headers_S, (wait_for_readline_line c l _ Hl1 Hf1 Hp), Hl2.
    destruct (header_of_line (decode_line l)) as [[k v]|];
      by apply (IH _ _ _ partial).
Qed.

(** When the client falls silent inside the header block, the loop
    ends on the deadline. *)
Lemma read_headers_times_out lines : forall fuel h c partial,
  Forall (fun l => is_header_line l = true) lines ->
  Forall (fun l => fits (limit (reader c)) l = true) lines ->
  unfinished partial = true ->
  N.of_nat (length partial) <= limit (reader c) ->
  pending (reader c) = concat lines ++ partial ->
  ending (reader c) = Stalls ->
  (length lines < fuel)%nat ->
  exists c', read_headers fuel h c = (c', Raise (Exn TimeoutError []))
             /\ same_but_pending c c'.
Proof.
  induction lines as [|l lines IH];
    intros fuel h c partial Hls Hfit Hu Hlim Hp He Hfuel.
  - destruct fuel as [|fuel]; [simpl in Hfuel; lia|]. simpl in Hp.
    rewrite read_headers_S, wait_for_readline_unfinished, He by (by rewrite Hp).
    exists c. split; [done|apply same_but_pending_refl].
  - destruct fuel as [|fuel]; [simpl in Hfuel; lia|].
    apply Forall_cons in Hls as [Hl Hls]. apply Forall_cons in Hfit as [Hf1 Hfit].
    apply andb_true_iff in Hl as [Hl1 Hl2]. apply negb_true_iff in Hl2.
    simpl in Hp. rewrite <- app_assoc in Hp.
    rewrite read_headers_S, (wait_for_readline_line c l _ Hl1 Hf1 Hp), Hl2.
    assert (Hfuel' : (length lines < fuel)%nat) by (simpl in Hfuel; lia).
    destruct (header_of_line (decode_line l)) as [[k v]|].
    + destruct (IH fuel (<[k:=v]> h) (advance (concat lines ++ partial) c) partial)
        as (c' & -> & Hsame); try done.
      exists c'. split; [done|].
      eapply same_but_pending_trans; [apply advance_frame|exact Hsame].
    + destruct (IH fuel h (advance (concat lines ++ partial) c) partial)
        as (c' & -> & Hsame); try done.
      exists c'. split; [done|].
      eapply same_but_pending_trans; [apply advance_frame|exact Hsame].
Qed.

Section UnfinishedHead.

Variable format_value : json -> str.
Variable upstream_of : ForwardCall -> upstream.

Lemma after_headers_fuel m p v hs c :
  snd (after_headers format_value upstream_of m p v hs c) <> OutOfFuel.
Proof.
  unfold after_headers, bind.
  destruct (read_body hs c) as [c3 [body|e|]] eqn:Hb;
    [|done|by destruct (read_body_fuel _ _ _ Hb)].
  unfold call_forward.
  set (call := {| fc_method := m |}).
  destruct (forward_request_outcome (upstream_of call) (stats (self c3)))
    as [(status & text & Hf)|(e & _ & _ & Hf)];
    destruct (forward_request (upstream_of call) (stats (self c3))) as [st rf];
    cbn in Hf; subst rf; [|done].
  cbn [fst snd].
  destruct (send_response v status text _) as [c' r] eqn:Hs.
  by destruct (send_response_shape _ _ _ _ _ _ Hs)
    as (_ & _ & _ & _ & _ & [->|(e & -> & _)]).
Qed.

(** The reads have a deadline: on a client that falls silent the [try]
    block of the handler ends, with fuel beyond the number of bytes the
    client sent. *)
Lemma handle_request_ends_when_silent fuel c :
  ending (reader c) = Stalls ->
  (length (pending (reader c)) < fuel)%nat ->
  snd (handle_request format_value upstream_of fuel c) <> OutOfFuel.
Proof.
  intros He Hfuel.
  unfold handle_request, bind.
  destruct (wait_for_readline c) as [c1 [raw|e|]] eqn:Hr;
    [|done|by destruct (wait_for_readline_fuel _ _ Hr)].
  destruct raw as [|x raw]; [done|].
  destruct (length _ <? 3)%nat; [done|].
  destruct (split SP 2 _) as [|m [|p [|v [|? ?]]]]; try done.
  assert (H1 : ending (reader c1) = Stalls
               /\ (length (pending (reader c1)) < fuel)%nat).
  { unfold wait_for_readline in Hr. rewrite He in Hr.
    destruct (take_line (pending (reader c))) as [[l rest]|] eqn:Ht.
    - destruct (_ <? _); [done|]. injection Hr as <- _.
      pose proof (take_line_shorter _ _ _ Ht). cbn. split; [done|lia].
    - by destruct (_ <? _). }
  destruct H1 as [He1 Hlen1].
  pose proof (read_headers_ends_when_silent fuel ∅ c1 He1 Hlen1) as Hh.
  destruct (read_headers fuel ∅ c1) as [c2 [hs|e|]]; [|done|done].
  apply after_headers_fuel.
Qed.

(** X5.  A client that closes its side inside the header block, after a
    request line of three parts, lines with no blank line among them
    and possibly the start of a line, keeps the handler in its loop for
    ever: whatever the fuel, the run is out of fuel, and the writer is
    never closed. *)
Theorem closed_inside_headers_never_returns fuel c raw lines partial m p v :
  is_line raw = true ->
  split SP 2 (decode_line raw) = [m; p; v] ->
  Forall (fun l => is_header_line l = true) lines ->
  Forall (fun l => fits (limit (reader c)) l = true) (raw :: lines) ->
  unfinished partial = true ->
  N.of_nat (length partial) <= limit (reader c) ->
  pending (reader c) = raw ++ concat lines ++ partial ->
  ending (reader c) = Closes ->
  let out := handle_proxy_request format_value upstream_of fuel c in
  snd out = OutOfFuel
  /\ closed (writer (fst out)) = closed (writer c)
  /\ written (writer (fst out)) = written (writer c)
  /\ forwarded (fst out) = forwarded c.
Proof.
  intros Hraw Hparts Hls Hfit Hu Hlim Hp He out. subst out.
  apply Forall_cons in Hfit as [Hfit0 Hfit].
  pose proof (wait_for_readline_line c raw _ Hraw Hfit0 Hp) as Hread.
  assert (Hne : raw <> []) by (by destruct raw).
  unfold handle_proxy_request.
  rewrite (handle_request_three_parts _ _ fuel c _ raw m p v Hread Hne Hparts).
  unfold bind.
  pose proof (read_headers_never_ends lines fuel ∅
                (advance (concat lines ++ partial) c) partial
                Hls Hfit Hu Hlim eq_refl He) as Hspin.
  destruct (read_headers fuel ∅ (advance (concat lines ++ partial) c))
    as [c2 r] eqn:Hrh.
  cbn in Hspin. subst r.
  destruct (read_headers_frame _ _ _ _ _ Hrh) as (_ & Hw & Hf & _).
  cbn. by rewrite Hw, Hf.
Qed.

(** X6.  A client that falls silent before the head is complete (in the
    request line, or after it in a header block with no blank line yet)
    gets no answer: the handler returns (on the deadline, or at once
    when the request line has fewer than three parts) with the writer
    closed, nothing written and nothing forwarded. *)
Theorem silent_before_head_ends_gets_nothing fuel c lines partial :
  Forall (fun l => is_line l = true) lines ->
  Forall (fun l => is_header_line l = true) (tail lines) ->
  Forall (fun l => fits (limit (reader c)) l = true) lines ->
  unfinished partial = true ->
  N.of_nat (length partial) <= limit (reader c) ->
  pending (reader c) = concat lines ++ partial ->
  ending (reader c) = Stalls ->
  (length lines <= fuel)%nat ->
  let out := handle_proxy_request format_value upstream_of fuel c in
  snd out = Return tt
  /\ closed (writer (fst out)) = true
  /\ written (writer (fst out)) = written (writer c)
  /\ forwarded (fst out) = forwarded c.
Proof.
  intros Hwhole Hls Hfit Hu Hlim Hp He Hfuel out. subst out.
  unfold handle_proxy_request, handle_request, bind.
  destruct lines as [|raw lines].
  - simpl in Hp.
    rewrite wait_for_readline_unfinished, He by (by rewrite Hp). done.
  - apply Forall_cons in Hwhole as [Hraw _]. apply Forall_cons in Hfit as [Hfit0 Hfit].
    simpl in Hp, Hls. rewrite <- app_assoc in Hp.
    rewrite (wait_for_readline_line c raw _ Hraw Hfit0 Hp).
    destruct raw as [|x raw]; [done|].
    destruct (length _ <? 3)%nat; [done|].
    destruct (split SP 2 _) as [|m [|q [|v [|? ?]]]]; try done.
    assert (Hfuel' : (length lines < fuel)%nat) by (simpl in Hfuel; lia).
    destruct (read_headers_times_out lines fuel ∅
                (advance (concat lines ++ partial) c) partial
                Hls Hfit Hu Hlim eq_refl He Hfuel')
      as (c' & -> & (_ & Hw & Hf & _)).
    cbn. by rewrite Hw, Hf.
Qed.

End UnfinishedHead.

Lemma closed_inside_headers_never_returns_witness :
  let out := handle_proxy_request Samples.format_text Samples.answers 7
               (Samples.accept Cases.head_without_end Closes) in
  snd out = OutOfFuel /\ closed (writer (fst out)) = false.
Proof.
  intros out.
  destruct (closed_inside_headers_never_returns Samples.format_text Samples.answers 7
              (Samples.accept Cases.head_without_end Closes)
              (Samples.ascii_bytes "GET / HTTP/1.1" ++ Samples.crlf)
              [Samples.ascii_bytes "Host: x" ++ Samples.crlf]
              (Samples.ascii_bytes "Accept: */")
              (lit "GET") (lit "/") (lit "HTTP/1.1")) as (H1 & H2 & _).
  - reflexivity.
  - reflexivity.
  - repeat constructor.
  - repeat constructor.
  - reflexivity.
  - apply N.leb_le. reflexivity.
  - reflexivity.
  - reflexivity.
  - split; [exact H1|exact H2].
Defined.

Lemma silent_before_head_ends_gets_nothing_witness :
  let out := handle_proxy_request Samples.format_text Samples.answers 5
               (Samples.accept Cases.head_without_end Stalls) in
  snd out = Return tt
  /\ closed (writer (fst out)) = true
  /\ written (writer (fst out)) = []
  /\ forwarded (fst out) = [].
Proof.
  apply (silent_before_head_ends_gets_nothing Samples.format_text Samples.answers 5
           (Samples.accept Cases.head_without_end Stalls)
           [Samples.ascii_bytes "GET / HTTP/1.1" ++ Samples.crlf;
            Samples.ascii_bytes "Host: x" ++ Samples.crlf]
           (Samples.ascii_bytes "Accept: */")).
  - repeat constructor.
  - repeat constructor.
  - repeat constructor.
  - reflexivity.
  - apply N.leb_le. reflexivity.
  - reflexivity.
  - reflexivity.
  - apply Nat.leb_le. reflexivity.
Defined.

(** ** From the wire to the forward call *)

Section WireToCall.

Variable format_value : json -> str.
Variable upstream_of : ForwardCall -> upstream.

(** X7.  For a request whose head is whole on the wire, the header
    line that decides the body is the last one whose trimmed key is
    exactly [Content-Length]: with none (another spelling of the name
    does not count) the bytes after the blank line stay unread and the
    call has no body; with one of value [n], and [n] bytes there, the
    call carries the first [n] bytes after the blank line and the rest
    stays unread. *)
Theorem body_follows_last_content_length
    fuel c raw lines blank tail m p v :
  is_line raw = true ->
  split SP 2 (decode_line raw) = [m; p; v] ->
  Forall (fun l => is_header_line l = true) lines ->
  is_line blank = true -> is_blank_line blank = true ->
  Forall (fun l => fits (limit (reader c)) l = true) (raw :: lines ++ [blank]) ->
  pending (reader c) = raw ++ concat lines ++ blank ++ tail ->
  (length lines < fuel)%nat ->
  let out := handle_proxy_request format_value upstream_of fuel c in
  exists hs,
    (forall key, hs !! key = last_value key (map decode_line lines))
    /\ match last_value (lit "Content-Length") (map decode_line lines) with
       | None =>
           forwarded (fst out)
           = forwarded c ++ [the_call format_value m p hs None c]
           /\ pending (reader (fst out)) = tail
       | Some val =>
           forall n, py_int val = Some n ->
             (0 <= n <= Z.of_nat (length tail))%Z ->
             forwarded (fst out)
             = forwarded c
               ++ [the_call format_value m p hs (Some (take (Z.to_nat n) tail)) c]
             /\ pending (reader (fst out)) = drop (Z.to_nat n) tail
       end.
Proof.
  intros Hraw Hparts Hls Hb1 Hb2 Hfit Hp Hfuel out. subst out.
  destruct (head_on_wire_is_decoded fuel c raw lines blank tail m p v
              Hraw Hparts Hls Hb1 Hb2 Hfit Hp Hfuel) as (hs & Hh & Hlook).
  exists hs. split; [exact Hlook|]. rewrite <- Hlook.
  destruct (hs !! lit "Content-Length") as [val|] eqn:Hcl.
  - intros n Hn Hrange.
    pose proof (read_body_exact hs (advance tail c) val n Hcl Hn Hrange) as Hb.
    destruct (body_read_forwards format_value upstream_of _ _ _ _ _ _ _ _ _ Hh Hb)
      as [H1 H2]; [apply advance_frame|].
    cbv zeta in H1, H2. by rewrite H1, H2.
  - pose proof (read_body_absent hs (advance tail c) Hcl) as Hb.
    destruct (body_read_forwards format_value upstream_of _ _ _ _ _ _ _ _ _ Hh Hb)
      as [H1 H2]; [apply same_but_pending_refl|].
    cbv zeta in H1, H2. by rewrite H1, H2.
Qed.

End WireToCall.

Lemma body_follows_last_content_length_witness :
  let out := handle_proxy_request Samples.format_text Samples.answers 4
               (Samples.accept (Cases.post_twice "3" "5" "hello world") Closes) in
  map fc_data (forwarded (fst out)) = [Some (Samples.ascii_bytes "hello")]
  /\ pending (reader (fst out)) = Samples.ascii_bytes " world".
Proof.
  intros out.
  destruct (body_follows_last_content_length Samples.format_text Samples.answers 4
              (Samples.accept (Cases.post_twice "3" "5" "hello world") Closes)
              (Samples.ascii_bytes "POST /data HTTP/1.1" ++ Samples.crlf)
              [Samples.ascii_bytes "Content-Length: 3" ++ Samples.crlf;
               Samples.ascii_bytes "Content-Length: 5" ++ Samples.crlf]
              Samples.crlf (Samples.ascii_bytes "hello world")
              (lit "POST") (lit "/data") (lit "HTTP/1.1")) as (hs & _ & H).
  - reflexivity.
  - reflexivity.
  - repeat constructor.
  - reflexivity.
  - reflexivity.
  - repeat constructor.
  - reflexivity.
  - apply Nat.ltb_lt. reflexivity.
  - destruct (H 5%Z eq_refl) as [H1 H2].
    + split; [lia|apply Z.leb_le; reflexivity].
    + fold out in H1, H2. rewrite H1, H2. split; reflexivity.
Defined.

(** A [Content-Length] of more digits than the interpreter converts is
    refused, leading zeros included: the handler returns with the
    connection closed and nothing forwarded. *)
Example long_content_length_is_refused :
  py_int (replicate 4299 (48 : N) ++ lit "5") = Some 5%Z
  /\ py_int (replicate 4300 (48 : N) ++ lit "5") = None
  /\ (let out := handle_proxy_request Samples.format_text Samples.answers 4
                   (Samples.accept
                      (Samples.ascii_bytes "POST /data HTTP/1.1" ++ Samples.crlf
                       ++ Samples.ascii_bytes "Content-Length: "
                       ++ replicate 4300 x30 ++ Samples.ascii_bytes "5"
                       ++ Samples.crlf ++ Samples.crlf
                       ++ Samples.ascii_bytes "hello") Closes) in
      snd out = Return tt
      /\ closed (writer (fst out)) = true
      /\ written (writer (fst out)) = []
      /\ forwarded (fst out) = []).
Proof. vm_compute. repeat split. Qed.

Lemma upstream_failure_answers_502_witness :
  let out := handle_proxy_request Samples.format_text Samples.unreachable 4
               (Samples.accept Samples.get_anything Closes) in
  exists head,
    written (writer (fst out))
    = Samples.ascii_bytes "HTTP/1.1 502 OK" ++ Samples.crlf ++ head
      ++ map byte_of (snd (bad_gateway
                             (Exn ClientError
                                (lit "Cannot connect to host localhost:8000"))))
    /\ closed (writer (fst out)) = true.
Proof.
  intros out.
  assert (Hh : head_decoded 4 (Samples.accept Samples.get_anything Closes)
                 (lit "GET") (lit "/anything") (lit "HTTP/1.1")
                 {[ lit "Host" := lit "x" ]} (Samples.accept [] Closes)).
  { head_of (Samples.ascii_bytes "GET /anything HTTP/1.1" ++ Samples.crlf)
      (Samples.accept (Samples.ascii_bytes "Host: x" ++ Samples.crlf
                       ++ Samples.crlf) Closes). }
  destruct (upstream_failure_answers_502 Samples.format_text Samples.unreachable 4
              _ _ _ _ _ _ (Samples.accept [] Closes) None
              (Exn ClientError (lit "Cannot connect to host localhost:8000")) Hh)
    as (line & head & Hl & _ & _ & Hc & Hw & _).
  - reflexivity.
  - reflexivity.
  - reflexivity.
  - exists head. fold out in Hw, Hc. rewrite Hw. split; [|exact Hc].
    injection Hl as <-. reflexivity.
Defined.

(** ** The header dictionary *)

Lemma lstrip_by_idem p s : lstrip_by p (lstrip_by p s) = lstrip_by p s.
Proof.
  induction s as [|c s IH]; [done|]. cbn [lstrip_by].
  destruct (p c) eqn:Hc; [done|]. cbn [lstrip_by]. by rewrite Hc.
Qed.

Lemma rstrip_by_idem p s : rstrip_by p (rstrip_by p s) = rstrip_by p s.
Proof. unfold rstrip_by. by rewrite rev_involutive, lstrip_by_idem. Qed.

Lemma rstrip_by_prefix p s : exists z, s = rstrip_by p s ++ z.
Proof.
  unfold rstrip_by. destruct (lstrip_by_suffix p (rev s)) as [a Ha].
  exists (rev a). rewrite <- rev_app_distr, <- Ha. by rewrite rev_involutive.
Qed.

Lemma lstrip_by_fixed_head p c s : lstrip_by p (c :: s) = c :: s -> p c = false.
Proof.
  cbn [lstrip_by]. destruct (p c); [|done]. intros H.
  destruct (lstrip_by_suffix p s) as [a Ha]. rewrite H in Ha.
  apply (f_equal length) in Ha. rewrite length_app in Ha. cbn in Ha. lia.
Qed.

Lemma lstrip_rstrip_fixed p t :
  lstrip_by p t = t -> lstrip_by p (rstrip_by p t) = rstrip_by p t.
Proof.
  intros Ht. destruct (rstrip_by_prefix p t) as [z Hz].
  destruct (rstrip_by p t) as [|c r]; [done|].
  rewrite Hz in Ht. cbn [app] in Ht. apply lstrip_by_fixed_head in Ht.
  cbn [lstrip_by]. by rewrite Ht.
Qed.

Lemma strip_trimmed s : trimmed (strip s).
Proof.
  unfold trimmed, strip.
  rewrite lstrip_rstrip_fixed by apply lstrip_by_idem. apply rstrip_by_idem.
Qed.

Lemma elem_of_lstrip_by p x s : x ∈ lstrip_by p s -> x ∈ s.
Proof.
  destruct (lstrip_by_suffix p s) as [a Ha]. intros H.
  rewrite Ha, elem_of_app. by right.
Qed.

Lemma elem_of_rstrip_by p x s : x ∈ rstrip_by p s -> x ∈ s.
Proof.
  destruct (rstrip_by_prefix p s) as [z Hz]. intros H.
  rewrite Hz, elem_of_app. by left.
Qed.

Lemma elem_of_strip x s : x ∈ strip s -> x ∈ s.
Proof. intros H. by eapply elem_of_lstrip_by, elem_of_rstrip_by. Qed.

Lemma rstrip_by_snoc p s x : p x = true -> rstrip_by p (s ++ [x]) = rstrip_by p s.
Proof.
  intros Hx. unfold rstrip_by. rewrite rev_app_distr. cbn [rev app lstrip_by].
  by rewrite Hx.
Qed.

Lemma take_line_Some b : forall l rest,
  take_line b = Some (l, rest) ->
  exists body, l = body ++ [x0a] /\ (x0a ∉ body).
Proof.
  induction b as [|x b IH]; intros l rest; [done|]. rewrite take_line_cons.
  destruct (Byte.eqb x x0a) eqn:Hx.
  - intros [= <- <-]. apply Byte.byte_dec_bl in Hx. subst x.
    exists []. split; [done|]. apply not_elem_of_nil.
  - destruct (take_line b) as [[l' rest']|]; [|done]. intros [= <- <-].
    destruct (IH l' rest' eq_refl) as (body & -> & Hnot).
    exists (x :: body). split; [done|]. rewrite not_elem_of_cons. split; [|done].
    intros <-. vm_compute in Hx. discriminate.
Qed.

Lemma take_line_None b : take_line b = None -> x0a ∉ b.
Proof.
  induction b as [|x b IH]; [intros _; apply not_elem_of_nil|].
  rewrite take_line_cons. destruct (Byte.eqb x x0a) eqn:Hx; [done|].
  destruct (take_line b) as [[l' rest']|]; [done|]. intros _.
  rewrite not_elem_of_cons. split; [|by apply IH].
  intros <-. vm_compute in Hx. discriminate.
Qed.

Lemma latin1_decode_line_feed b : LF ∈ latin1_decode b -> x0a ∈ b.
Proof.
  unfold latin1_decode. induction b as [|x b IH]; cbn [map]; [by intros ?%elem_of_nil|].
  rewrite !elem_of_cons. intros [Hx|Hin]; [left|right; by apply IH].
  pose proof (Byte.of_to_N x) as H. rewrite <- Hx in H. vm_compute in H. congruence.
Qed.

Lemma wait_for_readline_no_line_feed c c' raw :
  wait_for_readline c = (c', Return raw) -> LF ∉ decode_line raw.
Proof.
  unfold wait_for_readline.
  destruct (take_line (pending (reader c))) as [[l rest]|] eqn:Ht.
  - destruct (_ <? _)%N; [done|]. intros [= _ <-].
    destruct (take_line_Some _ _ _ Ht) as (body & -> & Hnot).
    unfold decode_line, rstrip_crlf, latin1_decode. rewrite map_app.
    cbn [map]. rewrite rstrip_by_snoc by done.
    intros H%elem_of_rstrip_by. by apply latin1_decode_line_feed in H.
  - destruct (_ <? _)%N; [done|]. destruct (ending (reader c)); [|done].
    intros [= _ <-]. apply take_line_None in Ht.
    intros H%elem_of_rstrip_by. by apply latin1_decode_line_feed in H.
Qed.

Lemma header_of_line_clean line k v :
  (LF ∉ line) -> header_of_line line = Some (k, v) ->
  (COLON ∉ k) /\ (LF ∉ k) /\ (LF ∉ v) /\ trimmed k /\ trimmed v.
Proof.
  unfold header_of_line. intros Hlf.
  destruct (cut COLON line) as [[k0 v0]|] eqn:Hc; [|done]. intros [= <- <-].
  destruct (cut_Some _ _ _ _ Hc) as [-> Hk].
  rewrite elem_of_app, elem_of_cons in Hlf.
  split; [intros H%elem_of_strip; tauto|].
  split; [intros H%elem_of_strip; tauto|].
  split; [intros H%elem_of_strip; tauto|].
  split; apply strip_trimmed.
Qed.

Lemma clean_empty : clean ∅.
Proof. intros k v H. by rewrite lookup_empty in H. Qed.

Lemma clean_insert h k v :
  clean h ->
  (COLON ∉ k) /\ (LF ∉ k) /\ (LF ∉ v) /\ trimmed k /\ trimmed v ->
  clean (<[k := v]> h).
Proof.
  intros Hh Hkv k' v'. destruct (decide (k = k')) as [<-|Hne].
  - rewrite lookup_insert_eq. by intros [= <-].
  - rewrite lookup_insert_ne by done. apply Hh.
Qed.

Lemma read_headers_clean fuel : forall h c c' hs,
  clean h -> read_headers fuel h c = (c', Return hs) -> clean hs.
Proof.
  induction fuel as [|fuel IH]; intros h c c' hs Hh; [done|].
  rewrite read_headers_S.
  destruct (wait_for_readline c) as [c1 [raw|e|]] eqn:Hr; [|done..].
  destruct (is_blank_line raw); [by intros [= _ <-]|].
  pose proof (wait_for_readline_no_line_feed _ _ _ Hr) as Hlf.
  destruct (header_of_line (decode_line raw)) as [[k v]|] eqn:Hl.
  - apply IH, clean_insert; [done|]. by eapply header_of_line_clean.
  - by apply IH.
Qed.

Section ForwardedHeaders.

Variable format_value : json -> str.
Variable upstream_of : ForwardCall -> upstream.

Lemma after_headers_call m p v hs c c' r :
  after_headers format_value upstream_of m p v hs c = (c', r) ->
  forwarded c' = forwarded c
  \/ exists body, forwarded c' = forwarded c ++ [the_call format_value m p hs body c].
Proof.
  unfold after_headers, bind.
  destruct (read_body hs c) as [c3 [body|e|]] eqn:Hb;
    destruct (read_body_frame _ _ _ _ Hb) as (Hs & Hw & Hf & He & Hl).
  - unfold call_forward. rewrite Hs.
    destruct (forward_request _ (stats (self c))) as [st [[status text]|e|]].
    + intros Hsend. right. exists body.
      destruct (send_response_shape _ _ _ _ _ _ Hsend) as (_ & _ & Hf1 & _).
      cbn in Hf1. rewrite Hf1, Hf. done.
    + intros [= <- <-]. right. exists body. cbn. by rewrite Hf.
    + intros [= <- <-]. right. exists body. cbn. by rewrite Hf.
  - intros [= <- <-]. by left.
  - intros [= <- <-]. by left.
Qed.

Lemma handle_request_call fuel c c' r :
  handle_request format_value upstream_of fuel c = (c', r) ->
  forwarded c' = forwarded c
  \/ exists m p v hs c2 body,
       head_decoded fuel c m p v hs c2
       /\ forwarded c' = forwarded c ++ [the_call format_value m p hs body c].
Proof.
  unfold handle_request, bind.
  destruct (wait_for_readline c) as [c1 [raw|e|]] eqn:Hr;
    pose proof (wait_for_readline_frame _ _ _ Hr) as (Hs1 & _ & Hf1 & _).
  - destruct raw as [|x raw]; [intros [= <- <-]; by left|].
    destruct (length _ <? 3)%nat; [intros [= <- <-]; by left|].
    destruct (split SP 2 _) as [|m [|p [|v [|? ?]]]] eqn:Hparts;
      try (intros [= <- <-]; by left).
    destruct (read_headers fuel ∅ c1) as [c2 [hs|e|]] eqn:Hh;
      pose proof (read_headers_frame _ _ _ _ _ Hh) as (Hs2 & _ & Hf2 & _).
    + intros [Ha|[body Ha]]%after_headers_call.
      * left. congruence.
      * right. exists m, p, v, hs, c2, body. split.
        -- exists (x :: raw), c1. by repeat split.
        -- rewrite Ha. unfold the_call. by rewrite Hf2, Hf1, Hs2, Hs1.
    + intros [= <- <-]. left. congruence.
    + intros [= <- <-]. left. congruence.
  - intros [= <- <-]. by left.
  - intros [= <- <-]. by left.
Qed.

(** X9.  Every call the handler forwards carries a header dictionary
    in which no name holds a colon, no name or value holds a line feed,
    and names and values have no blanks at either end. *)
Theorem forwarded_headers_are_clean fuel c :
  let out := handle_proxy_request format_value upstream_of fuel c in
  forall call, call ∈ forwarded (fst out) ->
    call ∈ forwarded c \/ clean (fc_headers call).
Proof.
  intros out call. subst out.
  destruct (handle_proxy_request_cases format_value upstream_of fuel c)
    as (c' & r & Hrun & _ & ->).
  assert (Hf : forwarded (fst match r with
                 | Return _ => (close c', Return tt)
                 | Raise e => if is_Exception e then (close c', Return tt)
                              else (close c', Raise e)
                 | OutOfFuel => (c', OutOfFuel)
                 end) = forwarded c').
  { destruct r as [[]|e|]; [|destruct (is_Exception e)|]; done. }
  rewrite Hf. clear Hf.
  destruct (handle_request_call _ _ _ _ Hrun)
    as [->|(m & p & v & hs & c2 & body & Hh & ->)]; [by left|].
  rewrite elem_of_app, list_elem_of_singleton. intros [H| ->]; [by left|].
  right. cbn. destruct Hh as (raw & c1 & _ & _ & _ & Hh).
  eapply read_headers_clean, Hh. apply clean_empty.
Qed.

End ForwardedHeaders.

Lemma forwarded_headers_are_clean_witness :
  let out := handle_proxy_request Samples.format_text Samples.answers 4
               (Samples.accept Samples.get_anything Closes) in
  exists call, call ∈ forwarded (fst out) /\ clean (fc_headers call).
Proof.
  intros out.
  pose proof (forwarded_headers_are_clean Samples.format_text Samples.answers 4
                (Samples.accept Samples.get_anything Closes)) as H.
  cbv zeta in H. fold out in H.
  destruct (forwarded (fst out)) as [|call l] eqn:Hf.
  - vm_compute in Hf. discriminate.
  - exists call. split; [apply list_elem_of_here|].
    destruct (H call (list_elem_of_here _ _)) as [Hin|Hc]; [|exact Hc].
    by apply elem_of_nil in Hin.
Defined.

(** ** Cancellation and resets *)

(** X10.  A call of [forward_request] whose upstream exchange is ended
    by an exception that is not an [Exception] (the cancellation of the
    task) raises it again; the call is counted in [total_requests] but
    neither as successful nor as failed, and [active_connections] is as
    before. *)
Theorem cancelled_call_counts_in_total_only up st e :
  up = Failed e -> is_Exception e = false ->
  let out := forward_request up st in
  snd out = Raise e
  /\ total_requests (fst out) = (total_requests st + 1)%Z
  /\ successful_requests (fst out) = successful_requests st
  /\ failed_requests (fst out) = failed_requests st
  /\ active_connections (fst out) = active_connections st.
Proof.
  intros -> He out. subst out. unfold forward_request. rewrite He. cbn.
  repeat split. lia.
Qed.

Lemma cancelled_call_counts_in_total_only_witness :
  let out := forward_request (Failed (Exn CancelledError [])) (fresh_stats (lit "t0")) in
  snd out = Raise (Exn CancelledError [])
  /\ total_requests (fst out) = 1%Z
  /\ successful_requests (fst out) = 0%Z
  /\ failed_requests (fst out) = 0%Z
  /\ active_connections (fst out) = 0%Z.
Proof.
  apply (cancelled_call_counts_in_total_only
           (Failed (Exn CancelledError [])) (fresh_stats (lit "t0"))
           (Exn CancelledError [])); reflexivity.
Defined.

Lemma cancelled_balance_step ev s s' k :
  Loop.is_reset ev = false ->
  Loop.step ev s = Some s' ->
  (total_requests (Loop.counters s)
   = successful_requests (Loop.counters s) + failed_requests (Loop.counters s)
     + Z.of_nat (Loop.exchanging s) + k)%Z ->
  (total_requests (Loop.counters s')
   = successful_requests (Loop.counters s') + failed_requests (Loop.counters s')
     + Z.of_nat (Loop.exchanging s') + k
     + Z.of_nat (cancelled_exchanges [ev]))%Z.
Proof.
  destruct s as [st ex lv]. destruct ev; cbn; try done;
    try (destruct ex; [done|]); try (destruct lv; [done|]);
    intros _ [= <-]; cbn; lia.
Qed.

Lemma cancelled_exchanges_cons ev evs :
  cancelled_exchanges (ev :: evs)
  = (cancelled_exchanges [ev] + cancelled_exchanges evs)%nat.
Proof. by destruct ev. Qed.

Lemma cancelled_balance evs : forall s s' k,
  without_reset evs = true ->
  Loop.run evs s = Some s' ->
  (total_requests (Loop.counters s)
   = successful_requests (Loop.counters s) + failed_requests (Loop.counters s)
     + Z.of_nat (Loop.exchanging s) + k)%Z ->
  (total_requests (Loop.counters s')
   = successful_requests (Loop.counters s') + failed_requests (Loop.counters s')
     + Z.of_nat (Loop.exchanging s') + k
     + Z.of_nat (cancelled_exchanges evs))%Z.
Proof.
  induction evs as [|ev evs IH]; intros s s' k.
  - intros _ [= <-] H. cbn. lia.
  - cbn [without_reset forallb Loop.run].
    intros [Hev Hevs]%andb_true_iff. apply negb_true_iff in Hev.
    destruct (Loop.step ev s) as [s1|] eqn:Hs; [|done].
    intros Hrun Hinv.
    pose proof (cancelled_balance_step ev s s1 k Hev Hs Hinv) as H1.
    pose proof (IH s1 s' (k + Z.of_nat (cancelled_exchanges [ev]))%Z Hevs Hrun) as H2.
    rewrite cancelled_exchanges_cons. lia.
Qed.

(** X11.  In every run from the start of the proxy without a reset,
    whatever the interleaving and the cancellations: [total_requests]
    exceeds [successful_requests + failed_requests] by the number of
    calls inside the upstream exchange plus the number of calls that
    were cancelled there.  A call cancelled in the exchange leaves the
    totals apart for good; one cancelled after its response was counted
    does not. *)
Theorem cancelled_exchanges_stay_in_total evs now s :
  without_reset evs = true ->
  Loop.run evs (Loop.initial now) = Some s ->
  total_requests (Loop.counters s)
  = (successful_requests (Loop.counters s) + failed_requests (Loop.counters s)
     + Z.of_nat (Loop.exchanging s) + Z.of_nat (cancelled_exchanges evs))%Z.
Proof.
  intros Hq Hrun.
  pose proof (cancelled_balance evs _ _ 0%Z Hq Hrun eq_refl) as H. lia.
Qed.

Lemma cancelled_exchanges_stay_in_total_witness :
  let evs := [Loop.Start; Loop.Start; Loop.Start; Loop.Respond;
              Loop.CancelExchange; Loop.CancelLeave; Loop.Fail] in
  exists s, Loop.run evs (Loop.initial (lit "t0")) = Some s
    /\ Loop.in_flight s = 0%nat
    /\ total_requests (Loop.counters s)
       = (successful_requests (Loop.counters s)
          + failed_requests (Loop.counters s) + 0 + 1)%Z.
Proof.
  intros evs. eexists. split; [reflexivity|]. split; [reflexivity|].
  apply (cancelled_exchanges_stay_in_total evs (lit "t0")); reflexivity.
Defined.

Lemma gauge_offset_step ev s s' :
  Loop.is_reset ev = false ->
  Loop.step ev s = Some s' ->
  (Z.of_nat (Loop.in_flight s') - active_connections (Loop.counters s')
   = Z.of_nat (Loop.in_flight s) - active_connections (Loop.counters s))%Z.
Proof.
  destruct s as [st ex lv]. unfold Loop.in_flight.
  destruct ev; cbn; try done;
    try (destruct ex; [done|]); try (destruct lv; [done|]);
    intros _ [= <-]; cbn; lia.
Qed.

Lemma gauge_offset evs : forall s s',
  without_reset evs = true ->
  Loop.run evs s = Some s' ->
  (Z.of_nat (Loop.in_flight s') - active_connections (Loop.counters s')
   = Z.of_nat (Loop.in_flight s) - active_connections (Loop.counters s))%Z.
Proof.
  induction evs as [|ev evs IH]; intros s s'.
  - by intros _ [= <-].
  - cbn [without_reset forallb Loop.run].
    intros [Hev Hevs]%andb_true_iff. apply negb_true_iff in Hev.
    destruct (Loop.step ev s) as [s1|] eqn:Hs; [|done].
    intros Hrun. rewrite (IH s1 s' Hevs Hrun). by apply (gauge_offset_step ev).
Qed.

(** X12.  A reset made while [k] calls are in flight leaves
    [active_connections] [k] below the number of calls in flight, and it
    stays so through every later step until the next reset: once those
    calls are over the gauge reads [-k]. *)
Theorem reset_offsets_the_gauge evs now s s' :
  without_reset evs = true ->
  Loop.run (Loop.ResetStats now :: evs) s = Some s' ->
  active_connections (Loop.counters s')
  = (Z.of_nat (Loop.in_flight s') - Z.of_nat (Loop.in_flight s))%Z.
Proof.
  intros Hq Hrun. cbn [Loop.run Loop.step] in Hrun.
  pose proof (gauge_offset evs _ _ Hq Hrun) as H.
  unfold Loop.in_flight in *. cbn in H. unfold Loop.in_flight. lia.
Qed.

Lemma reset_offsets_the_gauge_witness :
  let s := {| Loop.counters := enter_forward (enter_forward (fresh_stats (lit "t0")));
              Loop.exchanging := 2; Loop.leaving := 0 |} in
  let evs := [Loop.Respond; Loop.Fail; Loop.Start; Loop.Finish; Loop.Fail] in
  exists s', Loop.run (Loop.ResetStats (lit "t1") :: evs) s = Some s'
    /\ Loop.in_flight s' = 0%nat
    /\ active_connections (Loop.counters s') = (0 - 2)%Z.
Proof.
  intros s evs. eexists. split; [reflexivity|]. split; [reflexivity|].
  apply (reset_offsets_the_gauge evs (lit "t1") s); reflexivity.
Defined.

Lemma counters_bounds_step ev s s' :
  Loop.step ev s = Some s' ->
  (0 <= total_requests (Loop.counters s)
   /\ 0 <= successful_requests (Loop.counters s)
   /\ 0 <= failed_requests (Loop.counters s)
   /\ active_connections (Loop.counters s) <= Z.of_nat (Loop.in_flight s))%Z ->
  (0 <= total_requests (Loop.counters s')
   /\ 0 <= successful_requests (Loop.counters s')
   /\ 0 <= failed_requests (Loop.counters s')
   /\ active_connections (Loop.counters s') <= Z.of_nat (Loop.in_flight s'))%Z.
Proof.
  destruct s as [st ex lv]. unfold Loop.in_flight.
  destruct ev; cbn; try done;
    try (destruct ex; [done|]); try (destruct lv; [done|]);
    intros [= <-]; cbn; lia.
Qed.

Lemma counters_bounds evs : forall s s',
  Loop.run evs s = Some s' ->
  (0 <= total_requests (Loop.counters s)
   /\ 0 <= successful_requests (Loop.counters s)
   /\ 0 <= failed_requests (Loop.counters s)
   /\ active_connections (Loop.counters s) <= Z.of_nat (Loop.in_flight s))%Z ->
  (0 <= total_requests (Loop.counters s')
   /\ 0 <= successful_requests (Loop.counters s')
   /\ 0 <= failed_requests (Loop.counters s')
   /\ active_connections (Loop.counters s') <= Z.of_nat (Loop.in_flight s'))%Z.
Proof.
  induction evs as [|ev evs IH]; intros s s'.
  - by intros [= <-].
  - cbn [Loop.run]. destruct (Loop.step ev s) as [s1|] eqn:Hs; [|done].
    intros Hrun Hinv. eapply IH; [done|]. by eapply counters_bounds_step.
Qed.

(** X13.  In every state reached from the start of the proxy, resets
    and cancellations included: the three request counters are not
    negative, and [active_connections] is at most the number of calls in
    flight (it never counts a call that is not there). *)
Theorem gauge_never_overcounts evs now s :
  Loop.run evs (Loop.initial now) = Some s ->
  (0 <= total_requests (Loop.counters s)
   /\ 0 <= successful_requests (Loop.counters s)
   /\ 0 <= failed_requests (Loop.counters s)
   /\ active_connections (Loop.counters s) <= Z.of_nat (Loop.in_flight s))%Z.
Proof.
  intros Hrun. apply (counters_bounds evs _ _ Hrun). cbn. lia.
Qed.

Lemma gauge_never_overcounts_witness :
  let evs := [Loop.Start; Loop.Start; Loop.ResetStats (lit "t1"); Loop.Respond;
              Loop.Start; Loop.CancelExchange; Loop.GetStats 7] in
  exists s, Loop.run evs (Loop.initial (lit "t0")) = Some s
    /\ Loop.in_flight s = 2%nat
    /\ (0 <= total_requests (Loop.counters s)
        /\ 0 <= successful_requests (Loop.counters s)
        /\ 0 <= failed_requests (Loop.counters s)
        /\ active_connections (Loop.counters s) <= 2)%Z.
Proof.
  intros evs. eexists. split; [reflexivity|]. split; [reflexivity|].
  apply (gauge_never_overcounts evs (lit "t0")). reflexivity.
Defined.

(** ** The control API and the requests that follow *)

Section ControlThenHandler.

Variable int_of_text : str -> option Z.
Variable message : exn_class -> json -> str.
Variable format_value : json -> str.
Variable upstream_of : ForwardCall -> upstream.

Lemma py_int_of_result v (self self' : ProxyServer) :
  snd (py_int_of int_of_text message v self)
  = snd (py_int_of int_of_text message v self').
Proof.
  destruct v as [|b|z|f|s|l|d]; try done; cbn.
  - by destruct (int_of_float f).
  - by destruct (int_of_text s).
Qed.

Lemma py_int_of_anywhere v (self self' : ProxyServer) :
  py_int_of int_of_text message v self'
  = (self', snd (py_int_of int_of_text message v self)).
Proof.
  rewrite (py_int_of_result v self self').
  pose proof (py_int_of_pure int_of_text message v self') as H.
  destruct (py_int_of int_of_text message v self') as [s r]. cbn in *. by subst.
Qed.

Lemma update_config_try_again request_json self :
  let out := update_config_try int_of_text message request_json self in
  update_config_try int_of_text message request_json (fst out) = out.
Proof.
  intros out. subst out. destruct request_json as [e|data]; [done|].
  destruct data as [|b|z|f|s|l|d]; try done.
  - unfold update_config_try, bind. cbn [ret py_in].
    destruct (substring (lit "max_connections") s); [done|].
    cbn [ret]. by destruct (substring (lit "target_url") s).
  - unfold update_config_try, bind. cbn [ret py_in].
    destruct (existsb _ l); [done|].
    cbn [ret]. by destruct (existsb _ l).
  - rewrite !update_config_try_dict.
    destruct (dict_get (lit "max_connections") d) as [v|].
    + pose proof (py_int_of_pure int_of_text message v self) as Hp.
      destruct (py_int_of int_of_text message v self) as [s' [n|e|]] eqn:Hv;
        cbn [fst] in Hp; subst s'.
      * destruct (dict_get (lit "target_url") d) as [u|]; cbn [fst];
          rewrite (py_int_of_anywhere v self), Hv; done.
      * cbn [fst]. by rewrite Hv.
      * cbn [fst]. by rewrite Hv.
    + by destruct (dict_get (lit "target_url") d) as [u|].
Qed.

(** X14.  POST /config is idempotent: the same request made a second
    time leaves the configuration the first one left and gets the same
    answer, whether that is the new configuration or a rejection. *)
Theorem update_config_twice request_json self :
  let out := update_config int_of_text message request_json self in
  update_config int_of_text message request_json (fst out) = out.
Proof.
  intros out. subst out. unfold update_config.
  pose proof (update_config_try_again request_json self) as H. cbv zeta in H.
  destruct (update_config_try int_of_text message request_json self)
    as [self' [r|e|]] eqn:Ht; cbn [fst] in H.
  - cbn [fst]. by rewrite H.
  - destruct (is_Exception e) eqn:He; cbn [fst]; by rewrite H, He.
  - cbn [fst]. by rewrite H.
Qed.



End ControlThenHandler.



(** ** Construction *)

Section ConstructionProperties.

Variable int_of_text : str -> option Z.

Lemma text_or_given arg fallback :
  text_or (given_text arg) fallback = text_or arg fallback.
Proof. by destruct arg as [[|c s]|]. Qed.

Lemma int_setting_given env arg name dflt :
  int_setting int_of_text env (given_int arg) name dflt
  = int_setting int_of_text env arg name dflt.
Proof.
  unfold int_setting, given_int. destruct arg as [n|]; [|done].
  destruct (n =? 0)%Z eqn:Hn; [done|]. by rewrite Hn.
Qed.

(** X17.  An argument of [__init__] that is empty or zero counts as
    not passed: the constructor builds what it builds without it.  No
    caller can ask for port 0 or for a limit of 0 connections. *)
Theorem init_ignores_falsy_arguments env now a :
  init int_of_text env now a = init int_of_text env now (given a).
Proof.
  unfold init, given. cbn [arg_proxy_host arg_proxy_port arg_api_host
    arg_api_port arg_target_url arg_max_connections].
  by rewrite !text_or_given, !int_setting_given.
Qed.

Lemma int_setting_cases env arg name dflt :
  (bad_variable int_of_text env arg name = true
   /\ int_setting int_of_text env arg name dflt = Raise (Exn ValueError []))
  \/ (bad_variable int_of_text env arg name = false
      /\ exists n,
           int_setting int_of_text env arg name dflt = Return n
           /\ n = match given_int arg with
                  | Some k => k
                  | None =>
                      match env !! name with
                      | Some s => match int_of_text s with
                                  | Some z => z
                                  | None => dflt
                                  end
                      | None => dflt
                      end
                  end).
Proof.
  unfold bad_variable, int_setting, given_int.
  destruct arg as [k|]; [destruct (k =? 0)%Z|];
    try (right; split; [done|]; by eexists);
    (destruct (env !! name) as [s|];
       [destruct (int_of_text s) as [z|];
          [right; split; [done|]; by eexists|by left]
       |right; split; [done|]; by eexists]).
Qed.

(** X18.  [__init__] raises exactly when an integer setting it needs
    from the environment (its argument absent or zero) is there and is
    not the text of an integer; what it raises is a [ValueError].
    Otherwise it returns a server whose counters are all zero, with the
    start time of its construction. *)
Theorem init_raises_on_bad_variable env now a :
  let bad := bad_variable int_of_text env (arg_proxy_port a) (lit "PROXY_PORT")
             || bad_variable int_of_text env (arg_api_port a) (lit "API_PORT")
             || bad_variable int_of_text env (arg_max_connections a)
                  (lit "MAX_CONNECTIONS") in
  if bad then init int_of_text env now a = Raise (Exn ValueError [])
  else exists server,
         init int_of_text env now a = Return server
         /\ stats (core server) = fresh_stats now
         /\ total_requests (stats (core server)) = 0%Z
         /\ active_connections (stats (core server)) = 0%Z.
Proof.
  intros bad. subst bad. unfold init.
  destruct (int_setting_cases env (arg_proxy_port a) (lit "PROXY_PORT") 8080)
    as [[-> ->]|[-> (n1 & -> & _)]]; [done|].
  destruct (int_setting_cases env (arg_api_port a) (lit "API_PORT") 9000)
    as [[-> ->]|[-> (n2 & -> & _)]]; [done|].
  destruct (int_setting_cases env (arg_max_connections a)
              (lit "MAX_CONNECTIONS") 100)
    as [[-> ->]|[-> (n3 & -> & _)]]; [done|].
  cbn [orb]. eexists. split; [reflexivity|]. done.
Qed.

(** X19.  When every argument of [__init__] is passed, non-empty and
    non-zero, the environment is not consulted: the constructor returns,
    with the same server in every environment, holding the arguments. *)
Theorem init_arguments_override_environment env now h pp ah ap t mc :
  h <> [] -> pp <> 0%Z -> ah <> [] -> ap <> 0%Z -> t <> [] -> mc <> 0%Z ->
  init int_of_text env now
    {| arg_proxy_host := Some h; arg_proxy_port := Some pp;
       arg_api_host := Some ah; arg_api_port := Some ap;
       arg_target_url := Some t; arg_max_connections := Some mc |}
  = Return {| proxy_host := h; proxy_port := pp;
              api_host := ah; api_port := ap;
              core := {| target_url := JStr t;
                         max_connections := mc;
                         stats := fresh_stats now |} |}.
Proof.
  intros Hh Hpp Hah Hap Ht Hmc. unfold init, int_setting. cbn.
  apply Z.eqb_neq in Hpp, Hap, Hmc. rewrite Hpp, Hap, Hmc.
  destruct h; [done|]. destruct ah; [done|]. destruct t; done.
Qed.

End ConstructionProperties.

Lemma init_arguments_override_environment_witness :
  init py_int Cases.environment (lit "t0") Cases.all_args
  = Return {| proxy_host := lit "127.0.0.1"; proxy_port := 8888;
              api_host := lit "127.0.0.1"; api_port := 9999;
              core := {| target_url := JStr (lit "http://upstream:80");
                         max_connections := 5;
                         stats := fresh_stats (lit "t0") |} |}.
Proof.
  apply (init_arguments_override_environment py_int Cases.environment (lit "t0")
           (lit "127.0.0.1") 8888%Z (lit "127.0.0.1") 9999%Z
           (lit "http://upstream:80") 5%Z); discriminate.
Defined.

(** With [MAX_CONNECTIONS=many] in the environment the constructor
    raises unless the limit is passed. *)
Example init_with_bad_limit_in_environment :
  init py_int Cases.environment (lit "t0") Cases.no_args
  = Raise (Exn ValueError []).
Proof. reflexivity. Qed.

(** ** The connection limit *)

Lemma blind_ret {A} (a : A) : blind (ret a).
Proof. done. Qed.

Lemma blind_raise {A} e : blind (raise (A := A) e).
Proof. done. Qed.

Lemma blind_bind {A B} (m : M Conn A) (k : A -> M Conn B) :
  blind m -> (forall a, blind (k a)) -> blind (bind m k).
Proof.
  intros Hm Hk n c. unfold bind. rewrite Hm.
  destruct (m c) as [c1 [a|e|]]; cbn [fst snd]; [apply Hk|done|done].
Qed.

Lemma blind_wait_for_readline : blind wait_for_readline.
Proof.
  intros n c. unfold wait_for_readline. cbn [with_limit reader].
  destruct (take_line (pending (reader c))) as [[l rest]|].
  - by destruct (_ <? _)%N.
  - destruct (_ <? _)%N; [done|]. by destruct (ending (reader c)).
Qed.

Lemma blind_wait_for_readexactly k : blind (wait_for_readexactly k).
Proof.
  intros n c. unfold wait_for_readexactly. cbn [with_limit reader].
  destruct (k <? 0)%Z; [done|]. destruct (k <=? _)%Z; [done|].
  by destruct (ending (reader c)).
Qed.

Lemma blind_write data : blind (write data).
Proof. done. Qed.

Lemma blind_encoded o : blind (encoded o).
Proof. by destruct o. Qed.

Lemma blind_int_of s : blind (int_of s).
Proof. unfold int_of. by destruct (py_int s). Qed.

Lemma blind_read_headers fuel : forall h, blind (read_headers fuel h).
Proof.
  induction fuel as [|fuel IH]; intros h; [done|].
  cbn [read_headers]. apply blind_bind; [apply blind_wait_for_readline|].
  intros raw. destruct (is_blank_line raw); [done|].
  destruct (contains _ _); [|apply IH].
  destruct (split _ _ _) as [|k [|v [|? ?]]]; first [apply IH|done].
Qed.

Lemma blind_read_body hs : blind (read_body hs).
Proof.
  unfold read_body. destruct (hs !! _) as [v|]; [|done].
  apply blind_bind; [apply blind_int_of|]. intros k.
  apply blind_bind; [apply blind_wait_for_readexactly|]. done.
Qed.

Lemma blind_send_response v status text : blind (send_response v status text).
Proof.
  unfold send_response.
  repeat (apply blind_bind; [first [apply blind_encoded|apply blind_write]|intros ?]).
  apply blind_write.
Qed.

Section ConnectionLimit.

Variable format_value : json -> str.
Variable upstream_of : ForwardCall -> upstream.

Lemma blind_call_forward call : blind (call_forward upstream_of call).
Proof.
  intros n c. unfold call_forward. cbn [with_limit self stats].
  by destruct (forward_request (upstream_of call) (stats (self c))).
Qed.

Lemma blind_after_headers m p v hs :
  blind (after_headers format_value upstream_of m p v hs).
Proof.
  intros n c. unfold after_headers. cbn [with_limit self target_url].
  apply blind_bind; [apply blind_read_body|]. intros body.
  apply blind_bind; [apply blind_call_forward|]. intros answer.
  apply blind_send_response.
Qed.

Lemma blind_handle_request fuel :
  blind (handle_request format_value upstream_of fuel).
Proof.
  unfold handle_request. apply blind_bind; [apply blind_wait_for_readline|].
  intros [|x raw]; [done|]. destruct (length _ <? 3)%nat; [done|].
  destruct (split _ _ _) as [|m [|p [|v [|? ?]]]]; try done.
  apply blind_bind; [apply blind_read_headers|]. intros hs.
  apply blind_after_headers.
Qed.

(** X20.  The handler never looks at [max_connections]: with any other
    value there it reads, forwards, writes and counts the same, and
    leaves that value.  A change of [max_connections] through
    POST /config changes nothing of how a request is handled. *)
Theorem handler_ignores_max_connections fuel n c :
  let out := handle_proxy_request format_value upstream_of fuel c in
  handle_proxy_request format_value upstream_of fuel (with_limit n c)
  = (with_limit n (fst out), snd out).
Proof.
  intros out. subst out. unfold handle_proxy_request.
  rewrite blind_handle_request.
  destruct (handle_request format_value upstream_of fuel c) as [c' [[]|e|]];
    cbn [fst snd]; [done| |done].
  by destruct (is_TimeoutError e || is_Exception e).
Qed.

End ConnectionLimit.

(** ** The handler and its awaits *)

Section WithAwaits.

Variable format_value : json -> str.
Variable upstream_of : ForwardCall -> upstream.
Variable w : Awaits.

(** A read goes as it does with nothing landing in it, or raises what
    landed and leaves the connection as it was. *)
Lemma landing_cases {A} (m : M Conn A) c :
  landing w m c = m c
  \/ exists e, landing w m c = (c, Raise e) /\ read_lands w c = Some e.
Proof.
  unfold landing. destruct (read_lands w c) as [e|]; [right; by exists e|by left].
Qed.

(** The header loop goes as [read_headers] does, or an exception landed
    in one of its reads, on a connection reached by reading only. *)
Lemma read_headers_in_cases fuel : forall h c,
  read_headers_in w fuel h c = read_headers fuel h c
  \/ exists c' e,
       read_headers_in w fuel h c = (c', Raise e)
       /\ read_lands w c' = Some e /\ same_but_pending c c'.
Proof.
  induction fuel as [|fuel IH]; intros h c; [by left|].
  cbn [read_headers_in read_headers]. unfold bind.
  destruct (landing_cases wait_for_readline c) as [->|(e & -> & He)].
  - destruct (wait_for_readline c) as [c1 [raw|e|]] eqn:Hr; [|by left..].
    pose proof (wait_for_readline_frame _ _ _ Hr) as Hf.
    destruct (is_blank_line raw); [by left|].
    destruct (contains _ _).
    + destruct (split _ _ _) as [|k [|v [|? ?]]]; try (by left).
      destruct (IH (<[strip k := strip v]> h) c1) as [->|(c' & e & -> & He & Hs)];
        [by left|right].
      exists c', e. split; [done|]. split; [done|].
      eapply same_but_pending_trans; eassumption.
    + destruct (IH h c1) as [->|(c' & e & -> & He & Hs)]; [by left|right].
      exists c', e. split; [done|]. split; [done|].
      eapply same_but_pending_trans; eassumption.
  - right. exists c, e. split; [done|]. split; [done|]. apply same_but_pending_refl.
Qed.

Lemma read_body_in_cases hs c :
  read_body_in w hs c = read_body hs c
  \/ exists e,
       read_body_in w hs c = (c, Raise e) /\ read_lands w c = Some e.
Proof.
  unfold read_body_in, read_body. destruct (hs !! _) as [v|]; [|by left].
  unfold bind, int_of. destruct (py_int v) as [n|]; [|by left]. cbn [ret].
  destruct (landing_cases (wait_for_readexactly n) c) as [->|(e & -> & He)];
    [by left|right; by exists e].
Qed.

(** From the target on, the [try] block goes as [after_headers] does
    (its result without the mark of the last write), or an exception
    landed in the read of the body. *)
Lemma after_headers_in_cases m p v hs c :
  (exists r,
     after_headers_in format_value upstream_of w m p v hs c
     = (fst (after_headers format_value upstream_of m p v hs c), r)
     /\ snd (after_headers format_value upstream_of m p v hs c)
        = match r with
          | Return _ => Return tt
          | Raise e => Raise e
          | OutOfFuel => OutOfFuel
          end)
  \/ exists e,
       after_headers_in format_value upstream_of w m p v hs c = (c, Raise e)
       /\ read_lands w c = Some e.
Proof.
  unfold after_headers_in, after_headers, bind.
  destruct (read_body_in_cases hs c) as [->|(e & -> & He)]; [left|right; by exists e].
  destruct (read_body hs c) as [c3 [body|e|]]; [|by eexists..].
  destruct (call_forward upstream_of _ c3) as [c4 [answer|e|]]; [|by eexists..].
  destruct (send_response v (fst answer) (snd answer) c4) as [c5 [[]|e|]];
    by eexists.
Qed.

Lemma handle_request_in_cases fuel c :
  (exists r,
     handle_request_in format_value upstream_of w fuel c
     = (fst (handle_request format_value upstream_of fuel c), r)
     /\ snd (handle_request format_value upstream_of fuel c)
        = match r with
          | Return _ => Return tt
          | Raise e => Raise e
          | OutOfFuel => OutOfFuel
          end)
  \/ exists c' e,
       handle_request_in format_value upstream_of w fuel c = (c', Raise e)
       /\ read_lands w c' = Some e /\ same_but_pending c c'.
Proof.
  unfold handle_request_in, handle_request, bind.
  destruct (landing_cases wait_for_readline c) as [->|(e & -> & He)].
  2: { right. exists c, e. split; [done|]. split; [done|].
       apply same_but_pending_refl. }
  destruct (wait_for_readline c) as [c1 [raw|e|]] eqn:Hr; [|left; by eexists..].
  pose proof (wait_for_readline_frame _ _ _ Hr) as Hf1.
  destruct raw as [|x raw]; [left; by eexists|].
  destruct (length _ <? 3)%nat; [left; by eexists|].
  destruct (split SP 2 _) as [|m [|p [|v [|? ?]]]]; try (left; by eexists).
  destruct (read_headers_in_cases fuel ∅ c1) as [->|(c' & e & -> & He & Hs)].
  2: { right. exists c', e. split; [done|]. split; [done|].
       eapply same_but_pending_trans; eassumption. }
  destruct (read_headers fuel ∅ c1) as [c2 [hs|e|]] eqn:Hh; [|left; by eexists..].
  pose proof (read_headers_frame _ _ _ _ _ Hh) as Hf2.
  destruct (after_headers_in_cases m p v hs c2) as [(r & -> & Hr')|(e & -> & He)].
  - left. by exists r.
  - right. exists c2, e. split; [done|]. split; [done|].
    eapply same_but_pending_trans; eassumption.
Qed.

End WithAwaits.

(** With nothing landing in a read and a client that takes what is
    written, the handler with its awaits is [handle_proxy_request]. *)
Lemma handle_proxy_request_in_quiet format_value upstream_of fuel c :
  handle_proxy_request_in format_value upstream_of quiet fuel c
  = (fst (handle_proxy_request format_value upstream_of fuel c),
     Some (snd (handle_proxy_request format_value upstream_of fuel c))).
Proof.
  unfold handle_proxy_request_in, handle_proxy_request.
  destruct (handle_request_in_cases format_value upstream_of quiet fuel c)
    as [(r & -> & Hr)|(c' & e & _ & He & _)]; [|done].
  destruct (handle_request format_value upstream_of fuel c) as [c1 r1].
  cbn [fst snd] in *. subst r1.
  destruct r as [[]|e|]; cbn; try done.
  by destruct (is_TimeoutError e || is_Exception e).
Qed.


Section ExitsWithAwaits.

Variable format_value : json -> str.
Variable upstream_of : ForwardCall -> upstream.
Variable w : Awaits.

(** The [try] block with its awaits, from [c]: an exception landed in
    one of its reads, nothing being written or forwarded; or it went as
    [handle_request] goes. *)
Lemma handle_request_in_ran fuel c :
  exists c1 r,
    handle_request_in format_value upstream_of w fuel c = (c1, r)
    /\ ((exists e, r = Raise e /\ read_lands w c1 = Some e
                   /\ same_but_pending c c1)
        \/ ran upstream_of c c1
             match r with
             | Return _ => Return tt
             | Raise e => Raise e
             | OutOfFuel => OutOfFuel
             end).
Proof.
  destruct (handle_request_in_cases format_value upstream_of w fuel c)
    as [(r & Hin & Hr)|(c' & e & Hin & He & Hs)].
  - eexists _, r. split; [exact Hin|]. right. rewrite <- Hr.
    apply (handle_request_ran format_value upstream_of fuel).
    by destruct (handle_request format_value upstream_of fuel c).
  - exists c', (Raise e). split; [exact Hin|]. left. by exists e.
Qed.

Lemma ran_closed c c1 r :
  ran upstream_of c c1 r -> closed (writer c1) = closed (writer c).
Proof. intros [(_ & -> & _) _|call data _ _ _ H _ _ _]; done. Qed.

(** The [finally] clause, reached from [c1] with [r1] being returned or
    raised. *)
Lemma finally_exits c c1 (r1 : result unit) :
  r1 <> OutOfFuel ->
  (forall e, r1 = Raise e -> is_Exception e = false ->
     (exists c', read_lands w c' = Some e
        /\ forwarded c1 = forwarded c
        /\ written (writer c1) = written (writer c))
     \/ (exists call, upstream_of call = Failed e
           /\ forwarded c1 = forwarded c ++ [call]
           /\ written (writer c1) = written (writer c))
     \/ drain_gives w c1 = Throws e) ->
  exits upstream_of w c
    match wait_closed_gives w (close c1) with
    | Resumes => (close c1, Some (excepted r1))
    | Throws e => (close c1, Some (Raise e))
    | Suspends => (close c1, None)
    end.
Proof.
  intros Hfuel Horigin. unfold exits.
  destruct (wait_closed_gives w (close c1)) as [|e|] eqn:Hwc; cbn [fst snd].
  - destruct r1 as [[]|e|]; cbn [excepted]; [by split| |done].
    destruct (is_TimeoutError e || is_Exception e) eqn:Hcaught; [by split|].
    apply orb_false_iff in Hcaught as [_ He].
    split; [done|]. right. split; [done|]. split; [done|].
    destruct (Horigin e eq_refl He) as [H|[H|H]]; [by left|right; by left|].
    right; right. by exists c1.
  - split; [done|]. by left.
  - right. by split.
Qed.

(** X2.  Whenever the handler returns or raises, [writer.close()] has
    been called.  No [Exception] raised inside the [try] block leaves
    the handler: what the handler raises is what
    [await writer.wait_closed()] raised in the [finally] clause, or else
    an exception that is not an [Exception] (a cancellation) that landed
    in a read or ended the upstream exchange, nothing having been
    written, or that landed in [await writer.drain()].  The handler
    stays short of its [finally] clause only while the header loop goes
    on or the drain stays suspended. *)
Theorem closes_on_every_exit fuel c :
  let out := handle_proxy_request_in format_value upstream_of w fuel c in
  match snd out with
  | Some (Return _) =>
      closed (writer (fst out)) = true
      /\ wait_closed_gives w (fst out) = Resumes
  | Some (Raise e) =>
      closed (writer (fst out)) = true
      /\ (wait_closed_gives w (fst out) = Throws e
          \/ (wait_closed_gives w (fst out) = Resumes
              /\ is_Exception e = false
              /\ ((exists c', read_lands w c' = Some e
                     /\ forwarded (fst out) = forwarded c
                     /\ written (writer (fst out)) = written (writer c))
                  \/ (exists call, upstream_of call = Failed e
                        /\ forwarded (fst out) = forwarded c ++ [call]
                        /\ written (writer (fst out)) = written (writer c))
                  \/ (exists c1, fst out = close c1
                        /\ drain_gives w c1 = Throws e))))
  | Some OutOfFuel => closed (writer (fst out)) = closed (writer c)
  | None =>
      (drain_gives w (fst out) = Suspends
       /\ closed (writer (fst out)) = closed (writer c))
      \/ (wait_closed_gives w (fst out) = Suspends
          /\ closed (writer (fst out)) = true)
  end.
Proof.
  intros out. subst out. unfold handle_proxy_request_in.
  destruct (handle_request_in_ran fuel c) as (c1 & r & -> & Hran).
  destruct Hran as [(e & -> & He & Hs)|Hran].
  { (* an exception landed in a read *)
    cbn [drained]. apply (finally_exits c c1 (Raise e)); [done|].
    intros e' [= <-] _. left. exists c1.
    destruct Hs as (_ & Hw & Hf & _). by rewrite Hw, Hf. }
  pose proof (ran_closed _ _ _ Hran) as Hclosed.
  destruct r as [[]|e|]; cbn [drained].
  - (* the response is written: the drain *)
    destruct (drain_gives w c1) as [|e|] eqn:Hd.
    + by apply (finally_exits c c1 (Return tt)).
    + apply (finally_exits c c1 (Raise e)); [done|].
      intros e' [= <-] _. by right; right.
    + left. by split.
  - by apply (finally_exits c c1 (Return tt)).
  - apply (finally_exits c c1 (Raise e)); [done|].
    intros e' [= <-] He. right; left.
    destruct Hran as [_ Hr|call data _ Hf Hw _ _ _ Hres].
    + destruct Hr as [?|[?|(e' & [= <-] & He')]]; congruence.
    + destruct Hres as [(status & text & _ & [?|(e' & [= <-] & He')])
                       |(e' & Hup & _ & [= <-] & ->)]; try congruence.
      exists call. by rewrite Hf, Hw, app_nil_r.
  - exact Hclosed.
Qed.

(** Where a run of the handler stands, by its result. *)
Lemma handle_proxy_request_in_shape fuel c :
  let out := handle_proxy_request_in format_value upstream_of w fuel c in
  match snd out with
  | None =>
      drain_gives w (fst out) = Suspends
      \/ wait_closed_gives w (fst out) = Suspends
  | Some OutOfFuel => True
  | Some _ => closed (writer (fst out)) = true
  end.
Proof.
  intros out. subst out. unfold handle_proxy_request_in.
  destruct (handle_request_in format_value upstream_of w fuel c) as [c1 r].
  assert (Hfinally : forall r1 : result unit, r1 <> OutOfFuel ->
    match snd match wait_closed_gives w (close c1) with
              | Resumes => (close c1, Some (excepted r1))
              | Throws e => (close c1, Some (Raise e))
              | Suspends => (close c1, None)
              end with
    | None =>
        drain_gives w (fst match wait_closed_gives w (close c1) with
                           | Resumes => (close c1, Some (excepted r1))
                           | Throws e => (close c1, Some (Raise e))
                           | Suspends => (close c1, None)
                           end) = Suspends
        \/ wait_closed_gives w (fst match wait_closed_gives w (close c1) with
                                    | Resumes => (close c1, Some (excepted r1))
                                    | Throws e => (close c1, Some (Raise e))
                                    | Suspends => (close c1, None)
                                    end) = Suspends
    | Some OutOfFuel => True
    | Some _ =>
        closed (writer (fst match wait_closed_gives w (close c1) with
                            | Resumes => (close c1, Some (excepted r1))
                            | Throws e => (close c1, Some (Raise e))
                            | Suspends => (close c1, None)
                            end)) = true
    end).
  { intros r1 Hr1.
    destruct (wait_closed_gives w (close c1)) as [|e|] eqn:Hwc; cbn [fst snd];
      [|done|by right].
    destruct r1 as [[]|e|]; cbn [excepted]; [done| |done].
    by destruct (is_TimeoutError e || is_Exception e). }
  destruct r as [[]|e|]; cbn [drained]; [|by apply Hfinally..|done].
  destruct (drain_gives w c1) as [|e|] eqn:Hd; [by apply Hfinally..|by left].
Qed.

(** X4.  The reads of the handler have a deadline: on a client that
    falls silent, with fuel beyond the number of bytes it sent, the
    header loop ends.  The handler then stays suspended only in
    [await writer.drain()] or [await writer.wait_closed()], the two
    awaits without a deadline; when these never stay suspended it
    returns or raises, with the writer closed. *)
Theorem silent_client_ends_the_handler fuel c :
  ending (reader c) = Stalls ->
  (length (pending (reader c)) < fuel)%nat ->
  let out := handle_proxy_request_in format_value upstream_of w fuel c in
  snd out <> Some OutOfFuel
  /\ (snd out = None ->
      drain_gives w (fst out) = Suspends
      \/ wait_closed_gives w (fst out) = Suspends)
  /\ (never_suspends w ->
      exists r, snd out = Some r /\ r <> OutOfFuel
                /\ closed (writer (fst out)) = true).
Proof.
  intros He Hfuel out.
  pose proof (handle_proxy_request_in_shape fuel c) as Hexit.
  cbv zeta in Hexit. fold out in Hexit.
  assert (Hne : snd out <> Some OutOfFuel).
  { subst out. unfold handle_proxy_request_in.
    pose proof (handle_request_ends_when_silent format_value upstream_of
                  fuel c He Hfuel) as Hbase.
    assert (Hbody : snd (handle_request_in format_value upstream_of w fuel c)
                    <> OutOfFuel).
    { destruct (handle_request_in_cases format_value upstream_of w fuel c)
        as [(r & -> & Hr)|(c' & e & -> & _)]; [|done].
      rewrite Hr in Hbase. by destruct r. }
    destruct (handle_request_in format_value upstream_of w fuel c) as [c1 r].
    cbn [snd] in Hbody.
    assert (Hfinally : forall r1 : result unit, r1 <> OutOfFuel ->
      snd match wait_closed_gives w (close c1) with
          | Resumes => (close c1, Some (excepted r1))
          | Throws e => (close c1, Some (Raise e))
          | Suspends => (close c1, None)
          end <> Some OutOfFuel).
    { intros r1 Hr1. destruct (wait_closed_gives w (close c1)); cbn; [|done..].
      destruct r1 as [[]|e|]; cbn; [done| |done].
      by destruct (is_TimeoutError e || is_Exception e). }
    destruct r as [[]|e|]; cbn [drained]; [|by apply Hfinally..|done].
    destruct (drain_gives w c1); [by apply Hfinally..|done]. }
  split; [exact Hne|]. split.
  - intros Hnone. by rewrite Hnone in Hexit.
  - intros Hw. destruct (snd out) as [[[]|e|]|] eqn:Hout.
    + by exists (Return tt).
    + by exists (Raise e).
    + done.
    + destruct (Hw (fst out)) as [H1 H2]. destruct Hexit; congruence.
Qed.

End ExitsWithAwaits.

Lemma silent_client_ends_the_handler_witness :
  let out := handle_proxy_request_in Samples.format_text Samples.answers quiet 60
               (Samples.accept Cases.head_without_end Stalls) in
  exists r, snd out = Some r /\ r <> OutOfFuel
            /\ closed (writer (fst out)) = true.
Proof.
  intros out.
  destruct (silent_client_ends_the_handler Samples.format_text Samples.answers
              quiet 60 (Samples.accept Cases.head_without_end Stalls))
    as (_ & _ & H).
  - reflexivity.
  - apply Nat.ltb_lt. reflexivity.
  - apply H. intros c. split; discriminate.
Defined.

(** A client that resets the connection after the response: the
    response is written, and the handler raises what
    [await writer.wait_closed()] raises. *)
Example reset_after_response_leaves_the_handler :
  let out := handle_proxy_request_in Samples.format_text Samples.answers
               reset_after_response 4
               (Samples.accept Samples.get_anything Closes) in
  snd out = Some (Raise (Exn OSError (lit "Connection reset by peer")))
  /\ closed (writer (fst out)) = true
  /\ length (written (writer (fst out))) = 72%nat.
Proof. vm_compute. repeat split. Qed.

(** A cancellation that lands while the handler waits for the rest of
    the head: it is raised again, with no call made and nothing
    written. *)
Example cancellation_in_a_read_leaves_the_handler :
  let out := handle_proxy_request_in Samples.format_text Samples.answers
               cancelled_in_read 4
               (Samples.accept Cases.head_without_end Stalls) in
  snd out = Some (Raise (Exn CancelledError []))
  /\ closed (writer (fst out)) = true
  /\ written (writer (fst out)) = []
  /\ forwarded (fst out) = [].
Proof. vm_compute. repeat split. Qed.

(** A client that sends a whole request and then reads nothing: with
    the drain suspended the handler never reaches its [finally] clause,
    and the writer stays open. *)
Example unread_response_keeps_the_handler :
  let out := handle_proxy_request_in Samples.format_text Samples.answers
               unread 4 (Samples.accept Samples.get_anything Stalls) in
  snd out = None
  /\ closed (writer (fst out)) = false
  /\ length (forwarded (fst out)) = 1%nat.
Proof. vm_compute. repeat split. Qed.
